(** * liftover.py: chain-file index and coordinate liftover

    A shallow embedding of [liftover.py] (classes [GapLessBlock], [SeqPair]
    and [ChainIndex]) together with the properties of its parser
    [ChainIndex.construct_from_chain_file] and of its query
    [ChainIndex.liftover].

    Conventions of the embedding.
    - Python 3 semantics.  A [str] is a [string]: one [ascii] per code point,
      restricted to code points below 256.
    - Python integers are unbounded, hence [Z]; list indices are [nat].
    - Python objects that are shared ([SeqPair] instances, [set] instances)
      live in stores and are referred to by their address (an index into the
      store), so that aliasing is explicit.
    - Exceptions are values of [exn]; code that can raise returns a [res]. *)

From Stdlib Require Import ZArith List Lia Ascii String.
From stdpp Require Import base option list gmap strings.

Local Open Scope string_scope.
Local Open Scope list_scope.
Local Open Scope Z_scope.

(** ** Exceptions *)

Inductive exn : Type :=
| IndexError
| ValueError
| UnboundLocalError.

Inductive res (A : Type) : Type :=
| Ok (a : A)
| Raise (e : exn).
Arguments Ok {A} a.
Arguments Raise {A} e.

#[global] Instance res_ret : MRet res := fun A a => Ok a.
#[global] Instance res_bind : MBind res := fun A B k m =>
  match m with
  | Ok a => k a
  | Raise e => Raise e
  end.

Definition failed {A : Type} (m : res A) : Prop := exists e, m = Raise e.

(** ** The string methods the parser uses *)

Module Str.

(** [str.isspace] on one code point below 256: TAB..CR, FS..US, SPACE,
    NEL (0x85) and NBSP (0xA0). *)
Definition isspace (c : ascii) : bool :=
  let n := nat_of_ascii c in
  ((9 <=? n) && (n <=? 13) || (28 <=? n) && (n <=? 32)
   || (n =? 133) || (n =? 160))%nat.

Definition isdigit (c : ascii) : bool :=
  let n := nat_of_ascii c in ((48 <=? n) && (n <=? 57))%nat.

Definition digit_value (c : ascii) : Z := Z.of_nat (nat_of_ascii c) - 48.

(** [s.startswith(p)] *)
Fixpoint startswith (s p : string) : bool :=
  match p, s with
  | EmptyString, _ => true
  | String _ _, EmptyString => false
  | String a p', String b s' => Ascii.eqb a b && startswith s' p'
  end.

(** [s.lstrip()] and [s.rstrip()] with no argument: whitespace is removed. *)
Fixpoint lstrip (s : string) : string :=
  match s with
  | EmptyString => EmptyString
  | String c s' => if isspace c then lstrip s' else s
  end.

Fixpoint rstrip (s : string) : string :=
  match s with
  | EmptyString => EmptyString
  | String c s' =>
      match rstrip s' with
      | EmptyString => if isspace c then EmptyString else String c EmptyString
      | r => String c r
      end
  end.

(** [s.split()] with no argument: the maximal runs of non-whitespace
    characters, in order.  [cur] is the run being read, reversed. *)
Fixpoint split_go (cur : list ascii) (s : string) : list string :=
  match s with
  | EmptyString =>
      match cur with
      | [] => []
      | _ => [string_of_list_ascii (List.rev cur)]
      end
  | String c s' =>
      if isspace c then
        match cur with
        | [] => split_go [] s'
        | _ => string_of_list_ascii (List.rev cur) :: split_go [] s'
        end
      else split_go (c :: cur) s'
  end.

Definition split (s : string) : list string := split_go [] s.

(** [int(s)] for a [str] argument, base 10: surrounding whitespace is
    ignored, one sign is allowed, then decimal digits, where a single
    underscore may separate two digits.  Anything else is a [ValueError].
    (Left out: the interpreter's configurable bound on the number of
    digits, and that it does not strip FS..US from a string of ASCII
    characters only.  It rejects every string that this function rejects.)
    [digits acc sep s] reads the digits after at least one digit was read into
    [acc]; [sep] says that the previous character was an underscore. *)
Fixpoint digits (acc : Z) (sep : bool) (s : string) : option Z :=
  match s with
  | EmptyString => if sep then None else Some acc
  | String c s' =>
      if isdigit c then digits (10 * acc + digit_value c) false s'
      else if Ascii.eqb c "_" then
        if sep then None else digits acc true s'
      else None
  end.

Definition unsigned (s : string) : option Z :=
  match s with
  | EmptyString => None
  | String c s' => if isdigit c then digits (digit_value c) false s' else None
  end.

Definition int_opt (s : string) : option Z :=
  match rstrip (lstrip s) with
  | String "+" s' => unsigned s'
  | String "-" s' => Z.opp <$> unsigned s'
  | s' => unsigned s'
  end.

Definition int (s : string) : res Z :=
  match int_opt s with
  | Some z => Ok z
  | None => Raise ValueError
  end.

End Str.

(** ** Data model *)

(** [GapLessBlock]: the four coordinates of an alignment without gaps. *)
Record GapLessBlock : Type := {
  s1 : Z;  (* block start in first genome *)
  e1 : Z;  (* block end in first genome *)
  s2 : Z;  (* block start in second genome *)
  e2 : Z   (* block end in second genome *)
}.

(** [GapLessBlock.__lt__]: [self.e1 < other]. *)
Definition GapLessBlock_lt (self : GapLessBlock) (other : Z) : bool :=
  e1 self <? other.

(** [GapLessBlock.__gt__]: [self.e2 > other]. *)
Definition GapLessBlock_gt (self : GapLessBlock) (other : Z) : bool :=
  e2 self >? other.

Definition boundaries (self : GapLessBlock) : Z * Z * Z * Z :=
  (s1 self, e1 self, s2 self, e2 self).

(** [SeqPair]: the blocks of one pair of sequence names. *)
Record SeqPair : Type := {
  seqname1 : string;
  seqname2 : string;
  strand1 : string;
  strand2 : string;
  blocks : list GapLessBlock
}.

(** [SeqPair.append] *)
Definition append (self : SeqPair) (block : GapLessBlock) : SeqPair :=
  {| seqname1 := seqname1 self; seqname2 := seqname2 self;
     strand1 := strand1 self; strand2 := strand2 self;
     blocks := blocks self ++ [block] |}.

(** [ChainIndex].  The attribute [seqnames] is a [defaultdict(set)]: it maps
    a sequence name to a [set] object.  Set objects can be shared between
    keys, so the dictionary holds their addresses and the objects themselves
    are in [set_store]; a set object is the list of the addresses of its
    members, in the order in which iterating over it yields them (no address
    twice).  The [SeqPair] objects are in [pair_store]. *)
Record ChainIndex : Type := {
  seqnames : gmap string nat;
  set_store : list (list nat);
  pair_store : list SeqPair
}.

(** [ChainIndex.__init__] *)
Definition ChainIndex_init : ChainIndex :=
  {| seqnames := ∅; set_store := []; pair_store := [] |}.

(** [self.seqnames[key]] read on the [defaultdict]: a missing key is first
    bound to a new empty set. *)
Definition seqnames_getitem (self : ChainIndex) (key : string) : ChainIndex * nat :=
  match seqnames self !! key with
  | Some a => (self, a)
  | None =>
      let a := length (set_store self) in
      ({| seqnames := <[key := a]> (seqnames self);
          set_store := set_store self ++ [[]];
          pair_store := pair_store self |}, a)
  end.

(** [self.seqnames[key] = value] *)
Definition seqnames_setitem (self : ChainIndex) (key : string) (a : nat) : ChainIndex :=
  {| seqnames := <[key := a]> (seqnames self);
     set_store := set_store self;
     pair_store := pair_store self |}.

(** [s.add(p)] on the set object at address [a].  Python does not fix the
    place of the new member in the iteration order; here it comes last.  The
    statements about arbitrary indexes below hold for every order, and the
    statements about built indexes concern sets with one member. *)
Definition set_add (self : ChainIndex) (a p : nat) : ChainIndex :=
  {| seqnames := seqnames self;
     set_store := alter (fun s => if decide (p ∈ s) then s else s ++ [p]) a (set_store self);
     pair_store := pair_store self |}.

(** Allocation of a new [SeqPair] object. *)
Definition new_pair (self : ChainIndex) (pair : SeqPair) : ChainIndex * nat :=
  ({| seqnames := seqnames self;
      set_store := set_store self;
      pair_store := pair_store self ++ [pair] |}, length (pair_store self)).

(** [pair.append(block)] on the pair object at address [p]. *)
Definition pair_append (self : ChainIndex) (p : nat) (block : GapLessBlock) : ChainIndex :=
  {| seqnames := seqnames self;
     set_store := set_store self;
     pair_store := alter (fun pair => append pair block) p (pair_store self) |}.

(** The members of the set object at address [a], in iteration order. *)
Definition members (self : ChainIndex) (a : nat) : list nat :=
  default [] (set_store self !! a).

(** [l[i]] on a list. *)
Definition getitem {A : Type} (l : list A) (i : nat) : res A :=
  match l !! i with
  | Some x => Ok x
  | None => Raise IndexError
  end.

(** ** The parser: [ChainIndex.construct_from_chain_file] *)

(** The local variables [pair] (here [pair_], an address), [s1], [s2].  Before the first header line
    [pair] is unbound and [s1], [s2] are [nan]: that state is [None]. *)
Definition locals : Type := option (nat * Z * Z).

(** A body field after unpacking: a token of the line, or the integer that
    the [except] branch assigns. *)
Inductive field : Type :=
| Token (s : string)
| Number (z : Z).

(** [int(x)] for a field. *)
Definition int (x : field) : res Z :=
  match x with
  | Token s => Str.int s
  | Number z => Ok z
  end.

(** The [if line.startswith('chain')] branch. *)
Definition header (cidx : ChainIndex) (line : string) : res (ChainIndex * locals) :=
  let items := Str.split line in
  name1 ← getitem items 2;
  name2 ← getitem items 7;
  str1 ← getitem items 4;
  str2 ← getitem items 9;
  let '(cidx, pair_) :=
    new_pair cidx {| seqname1 := name1; seqname2 := name2;
                     strand1 := str1; strand2 := str2; blocks := [] |} in
  let '(cidx, a) := seqnames_getitem cidx name1 in
  let cidx := set_add cidx a pair_ in
  let '(cidx, a) := seqnames_getitem cidx name1 in
  let cidx := seqnames_setitem cidx name2 a in
  start1 ← getitem items 5;
  s1 ← Str.int start1;
  start2 ← getitem items 10;
  s2 ← Str.int start2;
  Ok (cidx, Some (pair_, s1, s2)).

(** [sz,n1,n2 = line.split()] with its [except ValueError] branch. *)
Definition unpack (line : string) : res (field * field * field) :=
  match Str.split line with
  | [sz; n1; n2] => Ok (Token sz, Token n1, Token n2)
  | _ => sz ← Str.int (Str.rstrip line); Ok (Number sz, Number 0, Number 0)
  end.

(** The rest of the loop body, for a line that is not a header.  With
    [pair] unbound, [pair.append] raises after [int(sz)] was evaluated; the
    sums with [nan] before it produce no block.  (For a size beyond the
    range of a float that sum raises one statement earlier; either way the
    construction is aborted.) *)
Definition body (cidx : ChainIndex) (vars : locals) (line : string)
  : res (ChainIndex * locals) :=
  '(sz, n1, n2) ← unpack line;
  size ← int sz;
  match vars with
  | None => Raise UnboundLocalError
  | Some (pair_, s1, s2) =>
      let e1 := s1 + size in
      let e2 := s2 + size in
      let cidx := pair_append cidx pair_ (Build_GapLessBlock s1 e1 s2 e2) in
      gap1 ← int n1;
      gap2 ← int n2;
      Ok (cidx, Some (pair_, e1 + gap1 + 1, e2 + gap2 + 1))
  end.

(** Lines that the loop skips: comments and blank lines.  [line[0]] raises
    on an empty string (a line read from a file is never empty). *)
Definition skipped (line : string) : res bool :=
  match line with
  | EmptyString => Raise IndexError
  | String c _ => Ok (Ascii.eqb c "#" || String.eqb (Str.rstrip line) "")
  end.

Definition is_header (line : string) : bool := Str.startswith line "chain".

(** One iteration of [for line in f]. *)
Definition step (st : ChainIndex * locals) (line : string) : res (ChainIndex * locals) :=
  skip ← skipped line;
  if skip : bool then Ok st
  else if is_header line then header st.1 line
  else body st.1 st.2 line.

Fixpoint loop (st : ChainIndex * locals) (f : list string) : res (ChainIndex * locals) :=
  match f with
  | [] => Ok st
  | line :: f' => st' ← step st line; loop st' f'
  end.

Definition construct_from_chain_file (f : list string) : res ChainIndex :=
  st ← loop (ChainIndex_init, None) f; Ok st.1.

(** ** [bisect.bisect_left] and [bisect.bisect_right]

    The two functions of the [bisect] module, on a list of blocks and an
    integer, with the comparisons that Python resolves them to:
    [a[mid] < x] is [GapLessBlock.__lt__], and [x < a[mid]] falls back to the
    reflected [GapLessBlock.__gt__] because [int.__lt__] does not know
    blocks.  The [while lo < hi] loop halves [hi - lo], which bounds the
    number of iterations by [hi - lo]: that is the [fuel]. *)

Fixpoint bisect_left_loop (fuel : nat) (a : list GapLessBlock) (x : Z) (lo hi : nat)
  : res nat :=
  match fuel with
  | O => Ok lo
  | S fuel' =>
      if (lo <? hi)%nat then
        let mid := ((lo + hi) / 2)%nat in
        b ← getitem a mid;
        if GapLessBlock_lt b x then bisect_left_loop fuel' a x (mid + 1) hi
        else bisect_left_loop fuel' a x lo mid
      else Ok lo
  end.

Definition bisect_left (a : list GapLessBlock) (x : Z) : res nat :=
  bisect_left_loop (length a) a x 0 (length a).

Fixpoint bisect_right_loop (fuel : nat) (a : list GapLessBlock) (x : Z) (lo hi : nat)
  : res nat :=
  match fuel with
  | O => Ok lo
  | S fuel' =>
      if (lo <? hi)%nat then
        let mid := ((lo + hi) / 2)%nat in
        b ← getitem a mid;
        if GapLessBlock_gt b x then bisect_right_loop fuel' a x lo mid
        else bisect_right_loop fuel' a x (mid + 1) hi
      else Ok lo
  end.

Definition bisect_right (a : list GapLessBlock) (x : Z) : res nat :=
  bisect_right_loop (length a) a x 0 (length a).

(** ** The query: [ChainIndex.liftover] *)

(** The body of [for pair in ...] for one pair: [Ok (Some r)] is
    [return r], [Ok None] is falling through to the next iteration. *)
Definition visit (pair_ : SeqPair) (seqname : string) (pos : Z)
  : res (option (string * Z)) :=
  if decide (seqname = seqname1 pair_) then
    (* We need to search genome 1. *)
    i ← bisect_left (blocks pair_) pos;
    block ← getitem (blocks pair_) i;
    let '(s1, e1, s2, e2) := boundaries block in
    if (s1 <=? pos) && (pos <=? e1) then
      if decide (strand1 pair_ = strand2 pair_) then
        Ok (Some (seqname2 pair_, s2 + (pos - s1)))
      else
        Ok (Some (seqname2 pair_, s2 + (e1 - 1 - pos)))
    else Ok None
  else if decide (seqname = seqname2 pair_) then
    (* We need to search genome 2. *)
    i ← bisect_right (blocks pair_) pos;
    if (length (blocks pair_) <=? i)%nat then Ok None
    else
      block ← getitem (blocks pair_) i;
      let '(s1, e1, s2, e2) := boundaries block in
      if (s2 <=? pos) && (pos <=? e2) then
        if decide (strand1 pair_ = strand2 pair_) then
          Ok (Some (seqname1 pair_, s1 + (pos - s2)))
        else
          Ok (Some (seqname1 pair_, s1 + (e2 - 1 - pos)))
      else Ok None
  else Ok None.

(** The [for] loop over the members of the set, given as addresses into
    [store]; [return None] after the loop.  (An address with no object
    cannot come out of a set; such an entry is passed over.) *)
Fixpoint visit_all (store : list SeqPair) (it : list nat) (seqname : string) (pos : Z)
  : res (option (string * Z)) :=
  match it with
  | [] => Ok None
  | p :: it' =>
      match store !! p with
      | None => visit_all store it' seqname pos
      | Some pair_ =>
          r ← visit pair_ seqname pos;
          match r with
          | Some out => Ok (Some out)
          | None => visit_all store it' seqname pos
          end
      end
  end.

(** [liftover] returns the index as the call leaves it, and the result:
    [Ok (Some (name, pos))], [Ok None] for [None], or the exception. *)
Definition liftover (self : ChainIndex) (seqname : string) (pos : Z)
  : ChainIndex * res (option (string * Z)) :=
  let '(self, a) := seqnames_getitem self seqname in
  (self, visit_all (pair_store self) (members self a) seqname pos).

(** ** Properties of block lists, inputs and indexes *)

(** A block is a run of the same length in both genomes. *)
Definition gapless (b : GapLessBlock) : Prop := e1 b - s1 b = e2 b - s2 b.

Definition proper (b : GapLessBlock) : Prop := s1 b <= e1 b /\ gapless b.

(** [a] ends before [b] starts, in both genomes. *)
Definition precedes (a b : GapLessBlock) : Prop := e1 a < s1 b /\ e2 a < s2 b.

Definition ordered (l : list GapLessBlock) : Prop :=
  forall i j a b, (i < j)%nat -> l !! i = Some a -> l !! j = Some b -> precedes a b.

(** What the parser guarantees for the blocks of a pair. *)
Definition chain_blocks (l : list GapLessBlock) : Prop :=
  Forall proper l /\ ordered l.

(** A member of the set takes part in the query when the queried name is one
    of its two names; the other members are passed over. *)
Definition involved (store : list SeqPair) (seqname : string) (p : nat) : bool :=
  match store !! p with
  | Some pr => bool_decide (seqname = seqname1 pr) || bool_decide (seqname = seqname2 pr)
  | None => false
  end.

(** The pairs that a query of [seqname] examines, in the order of the
    iteration. *)
Definition candidates (self : ChainIndex) (seqname : string) : list nat :=
  match seqnames self !! seqname with
  | Some a => List.filter (involved (pair_store self) seqname) (members self a)
  | None => []
  end.

(** The three integers that the loop body reads from a body line. *)
Definition body_values (line : string) : res (Z * Z * Z) :=
  '(sz, n1, n2) ← unpack line;
  size ← int sz;
  gap1 ← int n1;
  gap2 ← int n2;
  Ok (size, gap1, gap2).

(** A body line is a line that reaches the last part of the loop body. *)
Definition is_body (line : string) : bool :=
  match skipped line with
  | Ok false => negb (is_header line)
  | _ => false
  end.

(** The size and the gaps of a body line are non-negative. *)
Definition nonneg_body (line : string) : bool :=
  if is_body line then
    match body_values line with
    | Ok (sz, n1, n2) => (0 <=? sz) && (0 <=? n1) && (0 <=? n2)
    | Raise _ => true
    end
  else true.

Definition nonneg_input (f : list string) : Prop := forallb nonneg_body f = true.

(** Every stored pair has a chain of blocks, and the blocks of the current
    pair end before the start pointers [s1], [s2]. *)
Definition parse_inv (st : ChainIndex * locals) : Prop :=
  (forall p pr, pair_store st.1 !! p = Some pr -> chain_blocks (blocks pr))
  /\ match st.2 with
     | Some (p, c1, c2) =>
         forall pr b, pair_store st.1 !! p = Some pr -> b ∈ blocks pr ->
                      e1 b < c1 /\ e2 b < c2
     | None => True
     end.

(** [pr'] is the object [pr] after some more [append]s. *)
Definition extends (pr pr' : SeqPair) : Prop :=
  seqname1 pr' = seqname1 pr /\ seqname2 pr' = seqname2 pr
  /\ strand1 pr' = strand1 pr /\ strand2 pr' = strand2 pr
  /\ blocks pr `prefix_of` blocks pr'.

(** The index after the first header line. *)
Definition first_header_index (name1 name2 str1 str2 : string) : ChainIndex :=
  {| seqnames := <[name2 := 0%nat]> (<[name1 := 0%nat]> ∅);
     set_store := [[0%nat]];
     pair_store := [{| seqname1 := name1; seqname2 := name2;
                       strand1 := str1; strand2 := str2; blocks := [] |}] |}.

(** The input holds one chain: exactly one of its lines is a header. *)
Definition single_chain (f : list string) : Prop :=
  length (List.filter is_header f) = 1%nat.

(** What the parser builds from a single chain: one pair, one set, which
    both names are bound to. *)
Definition single_pair_index (pr : SeqPair) : ChainIndex :=
  {| seqnames := <[seqname2 pr := 0%nat]> (<[seqname1 pr := 0%nat]> ∅);
     set_store := [[0%nat]];
     pair_store := [pr] |}.

Definition numeric (s : string) : bool :=
  match Str.int_opt s with
  | Some _ => true
  | None => false
  end.

(** A header has its required fields when token 10 (hence every token
    before it) is present, and its two start fields are integers. *)
Definition header_well_formed (line : string) : bool :=
  match Str.split line !! 5%nat, Str.split line !! 10%nat with
  | Some start1, Some start2 => numeric start1 && numeric start2
  | _, _ => false
  end.

(** The two forms of a body line. *)
Definition three_integers (line : string) : bool :=
  match Str.split line with
  | [sz; n1; n2] => numeric sz && numeric n1 && numeric n2
  | _ => false
  end.

Definition single_integer (line : string) : bool := numeric (Str.rstrip line).

Definition malformed (line : string) : bool :=
  match skipped line with
  | Ok false =>
      if is_header line then negb (header_well_formed line)
      else negb (three_integers line) && negb (single_integer line)
  | _ => false
  end.

(** ** Example inputs *)

Definition example_one_block : list string :=
  ["chain 100 chr1 1000 + 0 100 chr2 1000 + 0 100 1"; "100"].

Definition one_block_pair : SeqPair :=
  {| seqname1 := "chr1"; seqname2 := "chr2"; strand1 := "+"; strand2 := "+";
     blocks := [Build_GapLessBlock 0 100 0 100] |}.

(** Two chains that share their second sequence, [chr2]. *)
Definition example_shared_partner : list string :=
  ["chain 1 chr1 10 + 0 5 chr2 10 + 0 5 1"; "5";
   "chain 1 chr3 10 + 0 5 chr2 10 + 0 5 2"; "5"].

(** A chain of a sequence with itself. *)
Definition example_self_chain : list string :=
  ["chain 100 chr1 1000 + 0 100 chr1 1000 + 0 100 1"; "100"].

Definition self_pair : SeqPair :=
  {| seqname1 := "chr1"; seqname2 := "chr1"; strand1 := "+"; strand2 := "+";
     blocks := [Build_GapLessBlock 0 100 0 100] |}.

Definition example_self_chain_shifted : list string :=
  ["chain 1 chr1 1000 + 0 50 chr1 1000 + 100 150 1"; "50"].

Definition shifted_self_pair : SeqPair :=
  {| seqname1 := "chr1"; seqname2 := "chr1"; strand1 := "+"; strand2 := "+";
     blocks := [Build_GapLessBlock 0 50 100 150] |}.

(** The chain of the gap example, on opposite strands. *)
Definition example_gap_cross : list string :=
  ["chain 100 chr1 1000 + 0 111 chr2 1000 - 0 121 1"; "50 10 20"; "50"].

Definition gap_blocks : list GapLessBlock :=
  [Build_GapLessBlock 0 50 0 50; Build_GapLessBlock 61 111 71 121].

Definition gap_pair (name1 name2 str1 str2 : string) : SeqPair :=
  {| seqname1 := name1; seqname2 := name2; strand1 := str1; strand2 := str2;
     blocks := gap_blocks |}.

(** Two chains of chr1 on opposite strands, with chr2 and with chr3, whose
    blocks cover the same positions of chr1.  Both pairs are members of the
    one set that chr1 is bound to; [order] is the order in which that set
    yields them. *)
Definition example_two_cross : list string :=
  ["chain 1 chr1 10 + 0 10 chr2 10 - 0 10 1"; "10";
   "chain 1 chr1 10 + 0 10 chr3 10 - 0 10 2"; "10"].

Definition cross_pair (name2 : string) : SeqPair :=
  {| seqname1 := "chr1"; seqname2 := name2; strand1 := "+"; strand2 := "-";
     blocks := [Build_GapLessBlock 0 10 0 10] |}.

Definition two_cross_index (order : list nat) : ChainIndex :=
  {| seqnames := <["chr3" := 0%nat]> (<["chr2" := 0%nat]> (<["chr1" := 0%nat]> ∅));
     set_store := [order];
     pair_store := [cross_pair "chr2"; cross_pair "chr3"] |}.

(** [p] is a member of the set that the index maps from [seqname]. *)
Definition registered (self : ChainIndex) (seqname : string) (p : nat) : bool :=
  match seqnames self !! seqname with
  | Some a => bool_decide (p ∈ members self a)
  | None => false
  end.

(** ** Further notions *)

(** The number of blocks of a list with [e1 < x], and with [e2 <= x]. *)
Definition count_e1_below (l : list GapLessBlock) (x : Z) : nat :=
  length (List.filter (fun b => e1 b <? x) l).

Definition count_e2_upto (l : list GapLessBlock) (x : Z) : nat :=
  length (List.filter (fun b => e2 b <=? x) l).

(** The names and strands that a header line gives to its pair. *)
Definition header_fields (line : string) : option (string * string * string * string) :=
  name1 ← Str.split line !! 2%nat;
  name2 ← Str.split line !! 7%nat;
  str1 ← Str.split line !! 4%nat;
  str2 ← Str.split line !! 9%nat;
  Some (name1, name2, str1, str2).

Definition pair_fields (pr : SeqPair) : string * string * string * string :=
  (seqname1 pr, seqname2 pr, strand1 pr, strand2 pr).

(** The stores during parsing: every name is bound to an existing set, every
    set holds existing pairs, each once, and the current pair is the pair
    allocated last, a member of the one set that both its names are bound
    to. *)
Definition heap_inv (st : ChainIndex * locals) : Prop :=
  (forall key a, seqnames st.1 !! key = Some a -> (a < length (set_store st.1))%nat)
  /\ (forall a s, set_store st.1 !! a = Some s ->
        NoDup s /\ forall p, p ∈ s -> (p < length (pair_store st.1))%nat)
  /\ match st.2 with
     | Some (p, _, _) =>
         S p = length (pair_store st.1)
         /\ exists pr a, pair_store st.1 !! p = Some pr
              /\ seqnames st.1 !! seqname1 pr = Some a
              /\ seqnames st.1 !! seqname2 pr = Some a
              /\ p ∈ members st.1 a
     | None => pair_store st.1 = []
     end.

(** * Properties *)

(** ** The string methods on examples *)

Example split_header :
  Str.split "chain 100 chr1 1000 + 0 100 chr2 1000 + 0 100 1"
  = ["chain"; "100"; "chr1"; "1000"; "+"; "0"; "100"; "chr2"; "1000"; "+"; "0"; "100"; "1"].
Proof. reflexivity. Qed.

Example int_examples :
  Str.int_opt " 50" = Some 50 /\ Str.int_opt "1_000" = Some 1000
  /\ Str.int_opt "-7" = Some (-7) /\ Str.int_opt "5 0" = None
  /\ Str.int_opt "" = None /\ Str.int_opt "5_" = None /\ Str.int_opt "+" = None.
Proof. repeat split; reflexivity. Qed.

Example rstrip_examples :
  Str.rstrip "50 10 20  " = "50 10 20" /\ Str.rstrip "   " = "".
Proof. split; reflexivity. Qed.

(** ** The bisection functions return the partition point *)

Section Bisect.

Variables (a : list GapLessBlock) (x : Z) (k : nat).
Hypothesis k_le : (k <= length a)%nat.

Lemma bisect_left_loop_partition :
  (forall j b, a !! j = Some b -> (j < k)%nat -> GapLessBlock_lt b x = true) ->
  (forall j b, a !! j = Some b -> (k <= j)%nat -> GapLessBlock_lt b x = false) ->
  forall fuel lo hi,
    (lo <= k <= hi)%nat -> (hi <= length a)%nat -> (hi - lo <= fuel)%nat ->
    bisect_left_loop fuel a x lo hi = Ok k.
Proof.
  intros Hbelow Habove fuel.
  induction fuel as [|fuel IH]; intros lo hi Hk Hhi Hfuel;
    cbn [bisect_left_loop bisect_right_loop].
  - f_equal; lia.
  - destruct (Nat.ltb_spec lo hi) as [Hlt|Hge]; [|f_equal; lia].
    assert (Hmid : (lo <= (lo + hi) / 2 < hi)%nat).
    { split; [apply Nat.div_le_lower_bound | apply Nat.Div0.div_lt_upper_bound]; lia. }
    set (mid := ((lo + hi) / 2)%nat) in *.
    unfold getitem.
    destruct (a !! mid) as [b|] eqn:Hb.
    2: { apply lookup_ge_None in Hb; lia. }
    cbn [mbind res_bind].
    destruct (GapLessBlock_lt b x) eqn:Hcmp.
    + apply IH; try lia.
      destruct (Nat.lt_ge_cases mid k) as [?|Hkm]; [lia|].
      rewrite (Habove _ _ Hb Hkm) in Hcmp; discriminate.
    + apply IH; try lia.
      destruct (Nat.lt_ge_cases mid k) as [Hmk|?]; [|lia].
      rewrite (Hbelow _ _ Hb Hmk) in Hcmp; discriminate.
Qed.

Lemma bisect_left_partition :
  (forall j b, a !! j = Some b -> (j < k)%nat -> e1 b < x) ->
  (forall j b, a !! j = Some b -> (k <= j)%nat -> x <= e1 b) ->
  bisect_left a x = Ok k.
Proof.
  intros Hbelow Habove. unfold bisect_left.
  apply bisect_left_loop_partition; try lia.
  - intros j b Hb Hj. apply Z.ltb_lt; eauto.
  - intros j b Hb Hj. apply Z.ltb_ge; eauto.
Qed.

Lemma bisect_right_loop_partition :
  (forall j b, a !! j = Some b -> (j < k)%nat -> GapLessBlock_gt b x = false) ->
  (forall j b, a !! j = Some b -> (k <= j)%nat -> GapLessBlock_gt b x = true) ->
  forall fuel lo hi,
    (lo <= k <= hi)%nat -> (hi <= length a)%nat -> (hi - lo <= fuel)%nat ->
    bisect_right_loop fuel a x lo hi = Ok k.
Proof.
  intros Hbelow Habove fuel.
  induction fuel as [|fuel IH]; intros lo hi Hk Hhi Hfuel;
    cbn [bisect_left_loop bisect_right_loop].
  - f_equal; lia.
  - destruct (Nat.ltb_spec lo hi) as [Hlt|Hge]; [|f_equal; lia].
    assert (Hmid : (lo <= (lo + hi) / 2 < hi)%nat).
    { split; [apply Nat.div_le_lower_bound | apply Nat.Div0.div_lt_upper_bound]; lia. }
    set (mid := ((lo + hi) / 2)%nat) in *.
    unfold getitem.
    destruct (a !! mid) as [b|] eqn:Hb.
    2: { apply lookup_ge_None in Hb; lia. }
    cbn [mbind res_bind].
    destruct (GapLessBlock_gt b x) eqn:Hcmp.
    + apply IH; try lia.
      destruct (Nat.lt_ge_cases mid k) as [Hmk|?]; [|lia].
      rewrite (Hbelow _ _ Hb Hmk) in Hcmp; discriminate.
    + apply IH; try lia.
      destruct (Nat.lt_ge_cases mid k) as [?|Hkm]; [lia|].
      rewrite (Habove _ _ Hb Hkm) in Hcmp; discriminate.
Qed.

Lemma bisect_right_partition :
  (forall j b, a !! j = Some b -> (j < k)%nat -> e2 b <= x) ->
  (forall j b, a !! j = Some b -> (k <= j)%nat -> x < e2 b) ->
  bisect_right a x = Ok k.
Proof.
  intros Hbelow Habove. unfold bisect_right.
  apply bisect_right_loop_partition; try lia.
  - intros j b Hb Hj. unfold GapLessBlock_gt.
    destruct (Z.gtb_spec (e2 b) x); [|reflexivity].
    specialize (Hbelow _ _ Hb Hj); lia.
  - intros j b Hb Hj. unfold GapLessBlock_gt.
    destruct (Z.gtb_spec (e2 b) x); [reflexivity|].
    specialize (Habove _ _ Hb Hj); lia.
Qed.

End Bisect.

(** ** Reading results of the exception monad *)

Lemma bind_Ok_inv {A B : Type} (m : res A) (f : A -> res B) (b : B) :
  m ≫= f = Ok b -> exists a, m = Ok a /\ f a = Ok b.
Proof. destruct m as [a|e]; cbn; [eauto | discriminate]. Qed.

Lemma bind_Raise {A B : Type} (m : res A) (f : A -> res B) :
  failed m -> failed (m ≫= f).
Proof. intros [e ->]. exists e. reflexivity. Qed.

Ltac bind_inv H :=
  let a := fresh "v" in
  let E := fresh "E" in
  apply bind_Ok_inv in H; destruct H as (a & E & H).

Lemma getitem_Ok {A : Type} (l : list A) (i : nat) (x : A) :
  getitem l i = Ok x <-> l !! i = Some x.
Proof. unfold getitem. destruct (l !! i); split; congruence. Qed.

(** ** One pair: what [visit] returns on a chain of blocks *)

Section Visit.

Variable pr : SeqPair.
Variable k : nat.
Variable b : GapLessBlock.
Hypothesis Hchain : chain_blocks (blocks pr).
Hypothesis Hb : blocks pr !! k = Some b.

Lemma chain_proper j c : blocks pr !! j = Some c -> proper c.
Proof.
  intros Hc. destruct Hchain as [Hp _].
  rewrite Forall_forall in Hp. apply Hp.
  apply list_elem_of_lookup. eauto.
Qed.

Lemma chain_before j c :
  blocks pr !! j = Some c -> (j < k)%nat -> e1 c < s1 b /\ e2 c < s2 b.
Proof. intros Hc Hj. destruct Hchain as [_ Ho]. exact (Ho _ _ _ _ Hj Hc Hb). Qed.

Lemma chain_after j c :
  blocks pr !! j = Some c -> (k < j)%nat -> e1 b < e1 c /\ e2 b < s2 c /\ e2 b < e2 c.
Proof.
  intros Hc Hj. destruct Hchain as [_ Ho].
  destruct (Ho _ _ _ _ Hj Hb Hc) as [H1 H2].
  destruct (chain_proper _ _ Hc) as [H3 H4]. unfold gapless in H4. lia.
Qed.

Lemma k_lt_length : (k < length (blocks pr))%nat.
Proof. eapply lookup_lt_Some; eauto. Qed.

Lemma bisect_left_covered p :
  s1 b <= p <= e1 b -> bisect_left (blocks pr) p = Ok k.
Proof.
  intros Hp. pose proof k_lt_length.
  apply bisect_left_partition; [lia | |].
  - intros j c Hc Hj. pose proof (chain_before _ _ Hc Hj). lia.
  - intros j c Hc Hj.
    destruct (decide (j = k)) as [->|Hne].
    + rewrite Hb in Hc. injection Hc as <-. lia.
    + assert (Hlt : (k < j)%nat) by lia.
      pose proof (chain_after _ _ Hc Hlt). lia.
Qed.

Lemma bisect_right_covered q :
  s2 b <= q < e2 b -> bisect_right (blocks pr) q = Ok k.
Proof.
  intros Hq. pose proof k_lt_length.
  apply bisect_right_partition; [lia | |].
  - intros j c Hc Hj. pose proof (chain_before _ _ Hc Hj). lia.
  - intros j c Hc Hj.
    destruct (decide (j = k)) as [->|Hne].
    + rewrite Hb in Hc. injection Hc as <-. lia.
    + assert (Hlt : (k < j)%nat) by lia.
      pose proof (chain_after _ _ Hc Hlt). lia.
Qed.

Lemma bisect_right_at_end : bisect_right (blocks pr) (e2 b) = Ok (S k).
Proof.
  pose proof k_lt_length.
  apply bisect_right_partition; [lia | |].
  - intros j c Hc Hj.
    destruct (decide (j = k)) as [->|Hne].
    + rewrite Hb in Hc. injection Hc as <-. lia.
    + assert (Hlt : (j < k)%nat) by lia.
      pose proof (chain_before _ _ Hc Hlt).
      destruct (chain_proper _ _ Hb) as [H3 H4]. unfold gapless in H4. lia.
  - intros j c Hc Hj.
    assert (Hlt : (k < j)%nat) by lia.
    pose proof (chain_after _ _ Hc Hlt). lia.
Qed.

(** Genome 1, position inside block [b]. *)
Lemma visit_genome1 p :
  s1 b <= p <= e1 b ->
  visit pr (seqname1 pr) p
  = Ok (Some (seqname2 pr,
              if decide (strand1 pr = strand2 pr) then s2 b + (p - s1 b)
              else s2 b + (e1 b - 1 - p))).
Proof.
  intros Hp. unfold visit.
  rewrite decide_True by reflexivity.
  rewrite (bisect_left_covered p Hp). cbn [mbind res_bind].
  unfold getitem. rewrite Hb. cbn [mbind res_bind boundaries].
  destruct (Z.leb_spec (s1 b) p); [|lia].
  destruct (Z.leb_spec p (e1 b)); [|lia].
  cbn [andb]. destruct (decide (strand1 pr = strand2 pr)); reflexivity.
Qed.

(** Genome 2, position inside block [b] but not on its end. *)
Lemma visit_genome2 q :
  seqname1 pr <> seqname2 pr ->
  s2 b <= q < e2 b ->
  visit pr (seqname2 pr) q
  = Ok (Some (seqname1 pr,
              if decide (strand1 pr = strand2 pr) then s1 b + (q - s2 b)
              else s1 b + (e2 b - 1 - q))).
Proof.
  intros Hne Hq. unfold visit. pose proof k_lt_length.
  rewrite decide_False by congruence.
  rewrite decide_True by reflexivity.
  rewrite (bisect_right_covered q Hq). cbn [mbind res_bind].
  destruct (Nat.leb_spec (length (blocks pr)) k); [lia|].
  unfold getitem. rewrite Hb. cbn [mbind res_bind boundaries].
  destruct (Z.leb_spec (s2 b) q); [|lia].
  destruct (Z.leb_spec q (e2 b)); [|lia].
  cbn [andb]. destruct (decide (strand1 pr = strand2 pr)); reflexivity.
Qed.

(** Genome 2, position on the end of block [b]: the search lands on the
    next block, which starts later, or past the last block. *)
Lemma visit_genome2_end :
  seqname1 pr <> seqname2 pr ->
  visit pr (seqname2 pr) (e2 b) = Ok None.
Proof.
  intros Hne. unfold visit.
  rewrite decide_False by congruence.
  rewrite decide_True by reflexivity.
  rewrite bisect_right_at_end. cbn [mbind res_bind].
  destruct (Nat.leb_spec (length (blocks pr)) (S k)) as [|Hlt]; [reflexivity|].
  unfold getitem.
  destruct (blocks pr !! S k) as [c|] eqn:Hc.
  2: { apply lookup_ge_None in Hc; lia. }
  cbn [mbind res_bind boundaries].
  assert (Hk : (k < S k)%nat) by lia.
  pose proof (chain_after _ _ Hc Hk).
  destruct (Z.leb_spec (s2 c) (e2 b)); [lia|]. reflexivity.
Qed.

End Visit.

(** Genome 1, position past the end of every block: [blocks[i]] is out of
    range. *)
Lemma visit_genome1_past_end (pr : SeqPair) (p : Z) :
  (forall c, c ∈ blocks pr -> e1 c < p) ->
  visit pr (seqname1 pr) p = Raise IndexError.
Proof.
  intros Hall. unfold visit.
  rewrite decide_True by reflexivity.
  rewrite (bisect_left_partition (blocks pr) p (length (blocks pr))); [|lia| |].
  - cbn [mbind res_bind]. unfold getitem.
    destruct (blocks pr !! length (blocks pr)) eqn:Hc; [|reflexivity].
    apply lookup_lt_Some in Hc. lia.
  - intros j c Hc _. apply Hall, list_elem_of_lookup. eauto.
  - intros j c Hc Hj. apply lookup_lt_Some in Hc. lia.
Qed.

(** ** The loop over the candidate pairs *)

Lemma visit_not_involved (pr : SeqPair) (seqname : string) (pos : Z) :
  seqname <> seqname1 pr -> seqname <> seqname2 pr ->
  visit pr seqname pos = Ok None.
Proof.
  intros H1 H2. unfold visit. rewrite !decide_False by assumption. reflexivity.
Qed.

Lemma visit_all_candidates (store : list SeqPair) (it : list nat) (seqname : string) (pos : Z) :
  visit_all store it seqname pos
  = visit_all store (List.filter (involved store seqname) it) seqname pos.
Proof.
  induction it as [|p it IH]; [reflexivity|].
  cbn [visit_all List.filter]. unfold involved at 1.
  destruct (store !! p) as [pr|] eqn:Hp; [|exact IH].
  destruct (bool_decide (seqname = seqname1 pr) || bool_decide (seqname = seqname2 pr)) eqn:Hinv.
  - cbn [visit_all]. rewrite Hp.
    destruct (visit pr seqname pos) as [[out|]|e]; cbn [mbind res_bind]; auto.
  - apply orb_false_iff in Hinv as [H1 H2].
    apply bool_decide_eq_false in H1, H2.
    rewrite visit_not_involved by assumption. exact IH.
Qed.

Lemma liftover_result (self : ChainIndex) (seqname : string) (pos : Z) :
  (liftover self seqname pos).2
  = visit_all (pair_store self) (candidates self seqname) seqname pos.
Proof.
  unfold liftover, seqnames_getitem, candidates.
  destruct (seqnames self !! seqname) as [a|]; cbn [snd pair_store].
  - apply visit_all_candidates.
  - unfold members. cbn [set_store].
    rewrite lookup_app_r, Nat.sub_diag by lia. reflexivity.
Qed.

Lemma liftover_registered (self : ChainIndex) (seqname : string) (pos : Z) :
  is_Some (seqnames self !! seqname) -> (liftover self seqname pos).1 = self.
Proof.
  intros [a Ha]. unfold liftover, seqnames_getitem. rewrite Ha. reflexivity.
Qed.

Lemma candidates_registered (self : ChainIndex) (seqname : string) (p : nat) :
  head (candidates self seqname) = Some p -> is_Some (seqnames self !! seqname).
Proof.
  unfold candidates. destruct (seqnames self !! seqname); [eauto | discriminate].
Qed.

(** When the first candidate returns, that is the result of the query. *)
Lemma liftover_first_candidate (self : ChainIndex) (seqname : string) (pos : Z)
    (p : nat) (pr : SeqPair) (out : string * Z) :
  pair_store self !! p = Some pr ->
  head (candidates self seqname) = Some p ->
  visit pr seqname pos = Ok (Some out) ->
  liftover self seqname pos = (self, Ok (Some out)).
Proof.
  intros Hp Hhead Hvisit.
  rewrite (surjective_pairing (liftover self seqname pos)).
  rewrite liftover_result, liftover_registered by eauto using candidates_registered.
  f_equal.
  destruct (candidates self seqname) as [|q rest]; [discriminate|].
  injection Hhead as ->. cbn [visit_all]. rewrite Hp, Hvisit. reflexivity.
Qed.

(** When the first candidate raises, the query raises. *)
Lemma liftover_first_candidate_raises (self : ChainIndex) (seqname : string) (pos : Z)
    (p : nat) (pr : SeqPair) (e : exn) :
  pair_store self !! p = Some pr ->
  head (candidates self seqname) = Some p ->
  visit pr seqname pos = Raise e ->
  liftover self seqname pos = (self, Raise e).
Proof.
  intros Hp Hhead Hvisit.
  rewrite (surjective_pairing (liftover self seqname pos)).
  rewrite liftover_result, liftover_registered by eauto using candidates_registered.
  f_equal.
  destruct (candidates self seqname) as [|q rest]; [discriminate|].
  injection Hhead as ->. cbn [visit_all]. rewrite Hp, Hvisit. reflexivity.
Qed.

(** When the only candidate falls through, the query returns [None]. *)
Lemma liftover_only_candidate (self : ChainIndex) (seqname : string) (pos : Z)
    (p : nat) (pr : SeqPair) :
  pair_store self !! p = Some pr ->
  candidates self seqname = [p] ->
  visit pr seqname pos = Ok None ->
  liftover self seqname pos = (self, Ok None).
Proof.
  intros Hp Hcand Hvisit.
  rewrite (surjective_pairing (liftover self seqname pos)).
  rewrite liftover_result, liftover_registered.
  - f_equal. rewrite Hcand. cbn [visit_all]. rewrite Hp, Hvisit. reflexivity.
  - apply (candidates_registered _ _ p). rewrite Hcand. reflexivity.
Qed.

(** ** The parser, step by step *)

Lemma seqnames_getitem_pair_store (self : ChainIndex) (key : string) :
  pair_store (seqnames_getitem self key).1 = pair_store self.
Proof. unfold seqnames_getitem. destruct (seqnames self !! key); reflexivity. Qed.

Lemma header_Ok_inv (cidx : ChainIndex) (line : string) (st' : ChainIndex * locals) :
  header cidx line = Ok st' ->
  exists name1 name2 str1 str2 c1 c2 start1 start2,
    Str.split line !! 2%nat = Some name1 /\ Str.split line !! 7%nat = Some name2
    /\ Str.split line !! 4%nat = Some str1 /\ Str.split line !! 9%nat = Some str2
    /\ Str.split line !! 5%nat = Some start1 /\ Str.split line !! 10%nat = Some start2
    /\ Str.int start1 = Ok c1 /\ Str.int start2 = Ok c2
    /\ pair_store st'.1
       = pair_store cidx ++ [{| seqname1 := name1; seqname2 := name2;
                                strand1 := str1; strand2 := str2; blocks := [] |}]
    /\ st'.2 = Some (length (pair_store cidx), c1, c2).
Proof.
  unfold header. intros H.
  bind_inv H. bind_inv H. bind_inv H. bind_inv H.
  apply getitem_Ok in E, E0, E1, E2.
  cbn [new_pair] in H.
  match type of H with
  | context [seqnames_getitem ?c ?n] =>
      pose proof (seqnames_getitem_pair_store c n) as Hps;
      destruct (seqnames_getitem c n) as [c1 a1]
  end.
  match type of H with
  | context [seqnames_getitem ?c ?n] =>
      pose proof (seqnames_getitem_pair_store c n) as Hps';
      destruct (seqnames_getitem c n) as [c2 a2]
  end.
  bind_inv H. bind_inv H. bind_inv H. bind_inv H.
  apply getitem_Ok in E3, E5.
  injection H as <-.
  exists v, v0, v1, v2, v4, v6, v3, v5.
  cbn in Hps, Hps' |- *. rewrite Hps', Hps. auto 12.
Qed.

Lemma body_Ok_inv (cidx : ChainIndex) (vars : locals) (line : string)
    (st' : ChainIndex * locals) :
  body cidx vars line = Ok st' ->
  exists p c1 c2 sz n1 n2,
    vars = Some (p, c1, c2)
    /\ body_values line = Ok (sz, n1, n2)
    /\ st' = (pair_append cidx p (Build_GapLessBlock c1 (c1 + sz) c2 (c2 + sz)),
              Some (p, c1 + sz + n1 + 1, c2 + sz + n2 + 1)).
Proof.
  unfold body, body_values. intros H.
  bind_inv H. destruct v as [[sz n1] n2]. bind_inv H.
  destruct vars as [[[p c1] c2]|]; [|discriminate].
  bind_inv H. bind_inv H. injection H as <-.
  exists p, c1, c2, v, v0, v1.
  rewrite E. cbn [mbind res_bind]. rewrite E0. cbn [mbind res_bind].
  rewrite E1. cbn [mbind res_bind]. rewrite E2. auto.
Qed.

(** The three cases of one iteration. *)
Lemma step_Ok_inv (st st' : ChainIndex * locals) (line : string) :
  step st line = Ok st' ->
  (skipped line = Ok true /\ st' = st)
  \/ (skipped line = Ok false /\ is_header line = true /\ header st.1 line = Ok st')
  \/ (skipped line = Ok false /\ is_header line = false /\ body st.1 st.2 line = Ok st').
Proof.
  unfold step. intros H. bind_inv H. destruct v.
  - left. split; congruence.
  - right. destruct (is_header line); [left | right]; auto.
Qed.

(** ** The invariant of the parsing loop *)

Lemma nonneg_body_values (line : string) (sz n1 n2 : Z) :
  nonneg_body line = true -> skipped line = Ok false -> is_header line = false ->
  body_values line = Ok (sz, n1, n2) -> 0 <= sz /\ 0 <= n1 /\ 0 <= n2.
Proof.
  unfold nonneg_body, is_body. intros H Hs Hh Hv. rewrite Hs, Hh, Hv in H.
  cbn [negb] in H. apply andb_true_iff in H as [H H2].
  apply andb_true_iff in H as [H0 H1]. lia.
Qed.

Lemma chain_blocks_nil : chain_blocks [].
Proof.
  split; [constructor|]. intros i j a b _ Ha. rewrite lookup_nil in Ha. discriminate.
Qed.

Lemma chain_blocks_snoc (l : list GapLessBlock) (c1 c2 sz : Z) :
  chain_blocks l -> 0 <= sz ->
  (forall b, b ∈ l -> e1 b < c1 /\ e2 b < c2) ->
  chain_blocks (l ++ [Build_GapLessBlock c1 (c1 + sz) c2 (c2 + sz)]).
Proof.
  intros [Hp Ho] Hsz Hcur. split.
  - apply Forall_app. split; [assumption|].
    constructor; [|constructor]. unfold proper, gapless; cbn. lia.
  - intros i j a b Hij Ha Hb.
    apply lookup_snoc_Some in Hb as [[Hj Hb]|[Hj <-]].
    + rewrite lookup_app_l in Ha by lia. eauto.
    + rewrite lookup_app_l in Ha by lia.
      unfold precedes; cbn. apply Hcur, list_elem_of_lookup. eauto.
Qed.

Lemma parse_inv_init : parse_inv (ChainIndex_init, None).
Proof. split; [|exact I]. intros p pr Hp. cbn in Hp. rewrite lookup_nil in Hp. discriminate. Qed.

Lemma parse_inv_step (st st' : ChainIndex * locals) (line : string) :
  nonneg_body line = true -> parse_inv st -> step st line = Ok st' -> parse_inv st'.
Proof.
  intros Hnn [Hall Hcur] Hstep.
  apply step_Ok_inv in Hstep as [[_ ->]|[(_ & _ & H)|(Hs & Hh & H)]].
  - split; assumption.
  - apply header_Ok_inv in H
      as (n1 & n2 & t1 & t2 & c1 & c2 & ? & ? & _ & _ & _ & _ & _ & _ & _ & _ & Hps & Hv).
    split.
    + intros p pr. rewrite Hps. intros Hp.
      apply lookup_snoc_Some in Hp as [[_ Hp]|[_ <-]]; [eauto|apply chain_blocks_nil].
    + rewrite Hv, Hps. intros pr b Hp Hb.
      rewrite list_lookup_middle in Hp by reflexivity. injection Hp as <-.
      cbn in Hb. apply elem_of_nil in Hb. contradiction.
  - apply body_Ok_inv in H as (p & c1 & c2 & sz & n1 & n2 & Hv & Hvals & ->).
    destruct (nonneg_body_values _ _ _ _ Hnn Hs Hh Hvals) as (Hsz & Hn1 & Hn2).
    rewrite Hv in Hcur. cbn [fst snd pair_append pair_store] in *.
    assert (Hnew : forall pr, pair_store st.1 !! p = Some pr ->
              chain_blocks (blocks (append pr (Build_GapLessBlock c1 (c1 + sz) c2 (c2 + sz))))).
    { intros pr Hp. cbn [append blocks]. apply chain_blocks_snoc; eauto. }
    unfold parse_inv. cbn [fst snd pair_append pair_store]. split.
    + intros q pr'. rewrite list_lookup_alter.
      destruct (decide (p = q)) as [<-|Hne]; [|eauto].
      destruct (pair_store st.1 !! p) as [pr|] eqn:Hp; [|discriminate].
      cbn. intros [= <-]. eauto.
    + intros pr' b. rewrite list_lookup_alter_eq.
      destruct (pair_store st.1 !! p) as [pr|] eqn:Hp; [|discriminate].
      cbn. intros [= <-] Hb.
      apply elem_of_app in Hb as [Hb|Hb].
      * destruct (Hcur _ _ eq_refl Hb). lia.
      * apply list_elem_of_singleton in Hb as ->. cbn. lia.
Qed.

Lemma parse_inv_loop (f : list string) :
  nonneg_input f ->
  forall st st' : ChainIndex * locals, parse_inv st -> loop st f = Ok st' -> parse_inv st'.
Proof.
  unfold nonneg_input.
  induction f as [|line f IH]; intros Hnn st st' Hinv Hloop; cbn [loop] in Hloop.
  - injection Hloop as <-. assumption.
  - cbn [forallb] in Hnn. apply andb_true_iff in Hnn as [Hline Hnn].
    bind_inv Hloop. eauto using parse_inv_step.
Qed.

(** ** Parse order: blocks are only ever added at the end *)

Lemma extends_refl (pr : SeqPair) : extends pr pr.
Proof. unfold extends. repeat split; reflexivity. Qed.

Lemma extends_trans (p1 p2 p3 : SeqPair) : extends p1 p2 -> extends p2 p3 -> extends p1 p3.
Proof.
  unfold extends. intros (-> & -> & -> & -> & H12) (-> & -> & -> & -> & H23).
  repeat split. etransitivity; eassumption.
Qed.

Lemma loop_app (f1 f2 : list string) (st : ChainIndex * locals) :
  loop st (f1 ++ f2) = st' ← loop st f1; loop st' f2.
Proof.
  revert st. induction f1 as [|line f1 IH]; intros st; [reflexivity|].
  cbn [loop app]. destruct (step st line) as [st1|e]; cbn [mbind res_bind]; auto.
Qed.

Lemma step_extends (st st' : ChainIndex * locals) (line : string) :
  step st line = Ok st' ->
  forall p pr, pair_store st.1 !! p = Some pr ->
    exists pr', pair_store st'.1 !! p = Some pr' /\ extends pr pr'.
Proof.
  intros Hstep p pr Hp.
  apply step_Ok_inv in Hstep as [[_ ->]|[(_ & _ & H)|(_ & _ & H)]].
  - eauto using extends_refl.
  - apply header_Ok_inv in H
      as (? & ? & ? & ? & ? & ? & ? & ? & _ & _ & _ & _ & _ & _ & _ & _ & Hps & _).
    exists pr. rewrite Hps. split; [|apply extends_refl].
    apply lookup_app_l_Some. assumption.
  - apply body_Ok_inv in H as (q & c1 & c2 & sz & n1 & n2 & _ & _ & ->).
    cbn [fst pair_append pair_store]. rewrite list_lookup_alter.
    destruct (decide (q = p)) as [->|_]; [|eauto using extends_refl].
    rewrite Hp. cbn. eexists. split; [reflexivity|].
    unfold extends. cbn. repeat split. apply prefix_app_r. reflexivity.
Qed.

Lemma loop_extends (f : list string) :
  forall st st', loop st f = Ok st' ->
  forall p pr, pair_store st.1 !! p = Some pr ->
    exists pr', pair_store st'.1 !! p = Some pr' /\ extends pr pr'.
Proof.
  induction f as [|line f IH]; intros st st' Hloop p pr Hp; cbn [loop] in Hloop.
  - injection Hloop as <-. eauto using extends_refl.
  - bind_inv Hloop.
    destruct (step_extends _ _ _ E _ _ Hp) as (pr1 & Hp1 & Hext1).
    destruct (IH _ _ Hloop _ _ Hp1) as (pr2 & Hp2 & Hext2).
    eauto using extends_trans.
Qed.

(** ** An input with a single chain *)

(** Lines that are not headers leave the dictionary, the sets and the number
    of pairs as they are. *)
Lemma loop_no_header_frame (f : list string) :
  Forall (fun line => is_header line = false) f ->
  forall st st', loop st f = Ok st' ->
    seqnames st'.1 = seqnames st.1 /\ set_store st'.1 = set_store st.1
    /\ length (pair_store st'.1) = length (pair_store st.1).
Proof.
  induction 1 as [|line f Hline _ IH]; intros st st' Hloop; cbn [loop] in Hloop.
  - injection Hloop as <-. auto.
  - bind_inv Hloop.
    destruct (IH _ _ Hloop) as (-> & -> & ->).
    apply step_Ok_inv in E as [[_ ->]|[(_ & Hh & _)|(_ & _ & H)]]; [auto|congruence|].
    apply body_Ok_inv in H as (q & c1 & c2 & sz & n1 & n2 & _ & _ & ->).
    cbn [fst pair_append seqnames set_store pair_store].
    rewrite length_alter. auto.
Qed.

(** Before the first header, a line can only be skipped. *)
Lemma loop_before_header (f : list string) (cidx : ChainIndex) (st' : ChainIndex * locals) :
  Forall (fun line => is_header line = false) f ->
  loop (cidx, None) f = Ok st' -> st' = (cidx, None).
Proof.
  induction 1 as [|line f Hline _ IH]; intros Hloop; cbn [loop] in Hloop.
  - congruence.
  - bind_inv Hloop.
    apply step_Ok_inv in E as [[_ ->]|[(_ & Hh & _)|(_ & _ & H)]]; [auto|congruence|].
    apply body_Ok_inv in H as (q & c1 & c2 & sz & n1 & n2 & Hv & _). discriminate.
Qed.

Lemma header_init (line name1 name2 str1 str2 start1 start2 : string) :
  Str.split line !! 2%nat = Some name1 -> Str.split line !! 7%nat = Some name2 ->
  Str.split line !! 4%nat = Some str1 -> Str.split line !! 9%nat = Some str2 ->
  Str.split line !! 5%nat = Some start1 -> Str.split line !! 10%nat = Some start2 ->
  header ChainIndex_init line
  = c1 ← Str.int start1; c2 ← Str.int start2;
    Ok (first_header_index name1 name2 str1 str2, Some (0%nat, c1, c2)).
Proof.
  intros H2 H7 H4 H9 H5 H10. unfold header, getitem.
  rewrite H2, H7, H4, H9, H5, H10. cbn [mbind res_bind].
  unfold new_pair, seqnames_getitem at 1.
  cbn [ChainIndex_init seqnames set_store pair_store app length].
  rewrite lookup_empty. cbn [set_add seqnames set_store pair_store].
  unfold seqnames_getitem, set_add. cbn [seqnames set_store pair_store].
  rewrite lookup_insert_eq. reflexivity.
Qed.

Lemma header_init_inv (line : string) (st' : ChainIndex * locals) :
  header ChainIndex_init line = Ok st' ->
  exists name1 name2 str1 str2 c1 c2,
    st' = (first_header_index name1 name2 str1 str2, Some (0%nat, c1, c2)).
Proof.
  intros H.
  destruct (header_Ok_inv _ _ _ H)
    as (name1 & name2 & str1 & str2 & c1 & c2 & start1 & start2
        & H2 & H7 & H4 & H9 & H5 & H10 & Hc1 & Hc2 & _).
  rewrite (header_init _ _ _ _ _ _ _ H2 H7 H4 H9 H5 H10), Hc1, Hc2 in H.
  injection H as <-. eauto 10.
Qed.

Lemma no_header_filter (f : list string) :
  List.filter is_header f = [] -> Forall (fun line => is_header line = false) f.
Proof.
  induction f as [|line f IH]; cbn [List.filter]; [constructor|].
  destruct (is_header line) eqn:Hh; [discriminate|]. auto.
Qed.

Lemma single_chain_split (f : list string) :
  single_chain f ->
  exists pre h rest,
    f = pre ++ h :: rest /\ is_header h = true
    /\ Forall (fun line => is_header line = false) pre
    /\ Forall (fun line => is_header line = false) rest.
Proof.
  unfold single_chain.
  induction f as [|line f IH]; cbn [List.filter]; [discriminate|].
  destruct (is_header line) eqn:Hh; cbn [length]; intros Hlen.
  - exists [], line, f. repeat split; auto.
    apply no_header_filter. destruct (List.filter is_header f); [reflexivity|discriminate].
  - destruct (IH Hlen) as (pre & h & rest & -> & Hhd & Hpre & Hrest).
    exists (line :: pre), h, rest. repeat split; auto.
Qed.

Lemma header_not_skipped (line : string) :
  is_header line = true -> skipped line = Ok false.
Proof.
  unfold is_header. destruct line as [|c s]; cbn [Str.startswith]; [discriminate|].
  intros H. apply andb_true_iff in H as [Hc _]. apply Ascii.eqb_eq in Hc as <-.
  unfold skipped. cbn [Str.rstrip]. destruct (Str.rstrip s); reflexivity.
Qed.

Lemma single_chain_index (f : list string) (cidx : ChainIndex) :
  single_chain f -> construct_from_chain_file f = Ok cidx ->
  exists pr, cidx = single_pair_index pr.
Proof.
  intros Hsingle Hbuild.
  destruct (single_chain_split _ Hsingle) as (pre & h & rest & -> & Hh & Hpre & Hrest).
  unfold construct_from_chain_file in Hbuild. bind_inv Hbuild. injection Hbuild as <-.
  rewrite loop_app in E. bind_inv E.
  apply loop_before_header in E0 as ->; [|assumption].
  cbn [loop] in E. bind_inv E.
  unfold step in E0. rewrite (header_not_skipped _ Hh) in E0.
  cbn [mbind res_bind] in E0. rewrite Hh in E0. cbn [fst] in E0.
  apply header_init_inv in E0 as (name1 & name2 & str1 & str2 & c1 & c2 & ->).
  destruct (loop_no_header_frame _ Hrest _ _ E) as (Hnames & Hsets & Hlen).
  destruct (loop_extends _ _ _ E 0%nat _ eq_refl) as (pr & Hpr & Hn1 & Hn2 & _).
  exists pr. destruct v as [[names sets pairs] vars].
  cbn [fst seqnames set_store pair_store first_header_index length] in *.
  unfold single_pair_index. rewrite Hn1, Hn2. subst names sets. f_equal.
  destruct pairs as [|x [|y pairs]]; cbn in Hlen, Hpr; try discriminate.
  congruence.
Qed.

Lemma single_pair_candidates (pr : SeqPair) (seqname : string) :
  seqname = seqname1 pr \/ seqname = seqname2 pr ->
  candidates (single_pair_index pr) seqname = [0%nat].
Proof.
  intros Hname. unfold candidates, single_pair_index. cbn [seqnames pair_store].
  assert (Hlook : <[seqname2 pr := 0%nat]> (<[seqname1 pr := 0%nat]> (∅ : gmap string nat))
                    !! seqname = Some 0%nat).
  { rewrite lookup_insert. destruct (decide (seqname2 pr = seqname)); [reflexivity|].
    destruct Hname as [->| ->]; [apply lookup_insert_eq | congruence]. }
  rewrite Hlook. unfold members, involved. cbn.
  destruct Hname as [->| ->].
  - rewrite bool_decide_eq_true_2 by reflexivity. reflexivity.
  - rewrite (bool_decide_eq_true_2 (seqname2 pr = seqname2 pr)) by reflexivity.
    rewrite orb_true_r. reflexivity.
Qed.

(** ** Malformed lines *)

Lemma int_Ok_numeric (s : string) (z : Z) : Str.int s = Ok z -> numeric s = true.
Proof. unfold Str.int, numeric. destruct (Str.int_opt s); [reflexivity|discriminate]. Qed.

Lemma body_values_form (line : string) (v : Z * Z * Z) :
  body_values line = Ok v -> three_integers line = true \/ single_integer line = true.
Proof.
  unfold body_values, unpack, three_integers, single_integer. intros H.
  bind_inv H.
  destruct (Str.split line) as [|a [|b [|c [|d l]]]];
    try (bind_inv E; right; eapply int_Ok_numeric; eassumption).
  injection E as <-. bind_inv H. bind_inv H. bind_inv H. cbn [int] in *.
  left. rewrite !(int_Ok_numeric _ _ E), !(int_Ok_numeric _ _ E0), !(int_Ok_numeric _ _ E1).
  reflexivity.
Qed.

Lemma malformed_step (line : string) (st : ChainIndex * locals) :
  malformed line = true -> failed (step st line).
Proof.
  unfold malformed. intros Hbad.
  destruct (step st line) as [st'|e] eqn:Hstep; [|exists e; reflexivity].
  exfalso.
  apply step_Ok_inv in Hstep as [[Hs _]|[(Hs & Hh & H)|(Hs & Hh & H)]];
    rewrite Hs in Hbad; [discriminate| |]; rewrite Hh in Hbad.
  - apply header_Ok_inv in H
      as (? & ? & ? & ? & c1 & c2 & start1 & start2 & _ & _ & _ & _ & H5 & H10 & Hc1 & Hc2 & _).
    unfold header_well_formed in Hbad. rewrite H5, H10 in Hbad.
    rewrite (int_Ok_numeric _ _ Hc1), (int_Ok_numeric _ _ Hc2) in Hbad. discriminate.
  - apply body_Ok_inv in H as (? & ? & ? & sz & n1 & n2 & _ & Hv & _).
    apply andb_true_iff in Hbad as [H3 H1]. apply negb_true_iff in H3, H1.
    destruct (body_values_form _ _ Hv); congruence.
Qed.

Lemma malformed_loop (f : list string) (line : string) :
  line ∈ f -> malformed line = true -> forall st, failed (loop st f).
Proof.
  intros Hin Hbad. induction Hin as [line f|line other f _ IH]; intros st; cbn [loop].
  - apply bind_Raise, malformed_step, Hbad.
  - destruct (step st other) as [st'|e]; cbn [mbind res_bind]; [apply IH, Hbad|].
    exists e. reflexivity.
Qed.

(** ** The example blocks form chains *)

Lemma gap_blocks_chain : chain_blocks gap_blocks.
Proof.
  apply (chain_blocks_snoc [Build_GapLessBlock 0 50 0 50] 61 71 50); [|lia|].
  - apply (chain_blocks_snoc [] 0 0 50); [apply chain_blocks_nil|lia|].
    intros b Hb. apply elem_of_nil in Hb. contradiction.
  - intros b Hb. apply list_elem_of_singleton in Hb as ->. cbn. lia.
Qed.

Lemma one_block_chain : chain_blocks (blocks one_block_pair).
Proof.
  apply (chain_blocks_snoc [] 0 0 100); [apply chain_blocks_nil|lia|].
  intros b Hb. apply elem_of_nil in Hb. contradiction.
Qed.

(** * The claims *)

(** C1 (the code departs from the claim).  A query in genome 1 at a position
    past the end of every block of the first candidate pair does not pass on
    to the next candidate: [pair.blocks[i]] is read with [i = len(blocks)]
    and the query ends with [IndexError]. *)
Theorem liftover_genome1_past_last_block_raises
    (self : ChainIndex) (p : nat) (pr : SeqPair) (pos : Z) :
  pair_store self !! p = Some pr ->
  head (candidates self (seqname1 pr)) = Some p ->
  Forall (fun b => e1 b < pos) (blocks pr) ->
  liftover self (seqname1 pr) pos = (self, Raise IndexError).
Proof.
  intros Hp Hhead Hpast.
  apply (liftover_first_candidate_raises _ _ _ p pr); auto.
  apply visit_genome1_past_end. rewrite Forall_forall in Hpast. exact Hpast.
Qed.

Lemma liftover_genome1_past_last_block_raises_witness :
  construct_from_chain_file example_one_block = Ok (single_pair_index one_block_pair)
  /\ liftover (single_pair_index one_block_pair) "chr1" 101
     = (single_pair_index one_block_pair, Raise IndexError).
Proof.
  split; [vm_compute; reflexivity|].
  apply (liftover_genome1_past_last_block_raises
           (single_pair_index one_block_pair) 0%nat one_block_pair 101).
  - reflexivity.
  - vm_compute. reflexivity.
  - repeat constructor.
Defined.

(** C2 (the code departs from the claim).  After the two chains chr1-chr2
    and chr3-chr2 are parsed, the pair of the first chain is not a member of
    the set that the index maps from [chr2]: the second header rebinds
    [chr2] to the set of [chr3].  A query of [chr2] only reaches chr3. *)
Theorem shared_partner_registration_lost :
  exists cidx,
    construct_from_chain_file example_shared_partner = Ok cidx
    /\ pair_store cidx !! 0%nat
       = Some {| seqname1 := "chr1"; seqname2 := "chr2"; strand1 := "+"; strand2 := "+";
                 blocks := [Build_GapLessBlock 0 5 0 5] |}
    /\ registered cidx "chr1" 0 = true
    /\ registered cidx "chr2" 0 = false
    /\ liftover cidx "chr2" 3 = (cidx, Ok (Some ("chr3", 3))).
Proof.
  eexists. split; [vm_compute; reflexivity|].
  repeat split; vm_compute; reflexivity.
Qed.

(** C3 (as stated, refuted).  On the index of the one-block example the
    position 100 = e1 lifts from chr1 to (chr2, 100), and lifting that back
    from chr2 returns [None]; and for a chain of chr1 with itself the second
    query is again a genome 1 query, which here raises. *)
Lemma round_trip_fails_at_block_end :
  (construct_from_chain_file example_one_block = Ok (single_pair_index one_block_pair)
   /\ liftover (single_pair_index one_block_pair) "chr1" 100
      = (single_pair_index one_block_pair, Ok (Some ("chr2", 100)))
   /\ liftover (single_pair_index one_block_pair) "chr2" 100
      = (single_pair_index one_block_pair, Ok None))
  /\ (construct_from_chain_file example_self_chain_shifted
      = Ok (single_pair_index shifted_self_pair)
      /\ liftover (single_pair_index shifted_self_pair) "chr1" 10
         = (single_pair_index shifted_self_pair, Ok (Some ("chr1", 110)))
      /\ liftover (single_pair_index shifted_self_pair) "chr1" 110
         = (single_pair_index shifted_self_pair, Raise IndexError)).
Proof. repeat split; vm_compute; reflexivity. Qed.

(** C3 (amended).  For a pair on equal strands with two different names,
    whose blocks form a chain and which is the first candidate for both of
    its names, and for a position [pos] with s1 <= pos <= e1 in one of its
    blocks: the query from the first name returns
    (second name, s2 + (pos - s1)); and when pos < e1, the query from the
    second name at that position returns (first name, pos). *)
Theorem liftover_same_strand_round_trip
    (self : ChainIndex) (p : nat) (pr : SeqPair) (b : GapLessBlock) (pos : Z) :
  pair_store self !! p = Some pr ->
  head (candidates self (seqname1 pr)) = Some p ->
  head (candidates self (seqname2 pr)) = Some p ->
  seqname1 pr <> seqname2 pr ->
  chain_blocks (blocks pr) ->
  strand1 pr = strand2 pr ->
  b ∈ blocks pr ->
  s1 b <= pos <= e1 b ->
  liftover self (seqname1 pr) pos = (self, Ok (Some (seqname2 pr, s2 b + (pos - s1 b))))
  /\ (pos < e1 b ->
      liftover self (seqname2 pr) (s2 b + (pos - s1 b)) = (self, Ok (Some (seqname1 pr, pos)))).
Proof.
  intros Hp Hh1 Hh2 Hne Hchain Hstrand Hb Hpos.
  apply list_elem_of_lookup in Hb as [k Hk].
  split.
  - apply (liftover_first_candidate _ _ _ p pr); auto.
    rewrite (visit_genome1 pr k b Hchain Hk pos Hpos).
    rewrite decide_True by assumption. reflexivity.
  - intros Hlt.
    apply (liftover_first_candidate _ _ _ p pr); auto.
    destruct (chain_proper pr Hchain _ _ Hk) as [_ Hgap]. unfold gapless in Hgap.
    rewrite (visit_genome2 pr k b Hchain Hk) by (assumption || lia).
    rewrite decide_True by assumption. do 3 f_equal. lia.
Qed.

Lemma liftover_same_strand_round_trip_witness :
  liftover (single_pair_index one_block_pair) "chr1" 40
  = (single_pair_index one_block_pair, Ok (Some ("chr2", 0 + (40 - 0))))
  /\ (40 < 100 ->
      liftover (single_pair_index one_block_pair) "chr2" (0 + (40 - 0))
      = (single_pair_index one_block_pair, Ok (Some ("chr1", 40)))).
Proof.
  apply (liftover_same_strand_round_trip
           (single_pair_index one_block_pair) 0%nat one_block_pair
           (Build_GapLessBlock 0 100 0 100) 40).
  - reflexivity.
  - vm_compute. reflexivity.
  - vm_compute. reflexivity.
  - discriminate.
  - exact one_block_chain.
  - reflexivity.
  - apply list_elem_of_singleton. reflexivity.
  - cbn. lia.
Defined.

(** C4 (as stated, refuted).  A query of a name that is not registered
    returns [None] and leaves the name in the dictionary, bound to a new
    empty set. *)
Lemma liftover_unknown_name_registers_it :
  seqnames (single_pair_index one_block_pair) !! "chrX" = None
  /\ (liftover (single_pair_index one_block_pair) "chrX" 50).2 = Ok None
  /\ seqnames (liftover (single_pair_index one_block_pair) "chrX" 50).1 !! "chrX"
     = Some 1%nat
  /\ set_store (liftover (single_pair_index one_block_pair) "chrX" 50).1 = [[0%nat]; []]
  /\ (liftover (single_pair_index one_block_pair) "chrX" 50).1
     <> single_pair_index one_block_pair.
Proof.
  repeat split; try (vm_compute; reflexivity).
  intros H. apply (f_equal set_store) in H. vm_compute in H. discriminate.
Qed.

(** C4 (amended).  [liftover] changes nothing that is stored: the pairs and
    their blocks, the set objects, and the binding of every registered name
    stay as they are.  A query of a registered name leaves the whole index
    unchanged; a query of a name that is not registered returns [None] and
    binds that name to a new empty set. *)
Theorem liftover_frame (self : ChainIndex) (seqname : string) (pos : Z) :
  pair_store (liftover self seqname pos).1 = pair_store self
  /\ set_store self `prefix_of` set_store (liftover self seqname pos).1
  /\ (forall key a, seqnames self !! key = Some a ->
                    seqnames (liftover self seqname pos).1 !! key = Some a)
  /\ (is_Some (seqnames self !! seqname) -> (liftover self seqname pos).1 = self)
  /\ (seqnames self !! seqname = None ->
      (liftover self seqname pos).2 = Ok None
      /\ seqnames (liftover self seqname pos).1
         = <[seqname := length (set_store self)]> (seqnames self)
      /\ set_store (liftover self seqname pos).1 = set_store self ++ [[]]).
Proof.
  pose proof (liftover_result self seqname pos) as Hres.
  unfold liftover, seqnames_getitem, candidates in *.
  destruct (seqnames self !! seqname) as [a|] eqn:Hname; cbn [fst snd] in *.
  - split; [reflexivity|]. split; [reflexivity|]. split; [auto|].
    split; [reflexivity|]. discriminate.
  - cbn [pair_store set_store seqnames].
    split; [reflexivity|]. split; [|split; [|split; [|auto]]].
    + apply prefix_app_r. reflexivity.
    + intros key a Hkey. rewrite lookup_insert_ne; [assumption|congruence].
    + intros [a Ha]. discriminate.
Qed.

(** C9 (as stated, refuted).  Two pairs of chr1 on opposite strands, with
    chr2 and with chr3, both hold the block (0,10,0,10).  A query of chr1 at
    3 returns the answer of the pair that the set yields first: (chr2, 6)
    when the chr1-chr2 pair comes first, which is not what the chr1-chr3
    pair maps 3 to, and (chr3, 6) in the other order, which is not what the
    chr1-chr2 pair maps 3 to. *)
Lemma first_covering_pair_answers :
  construct_from_chain_file example_two_cross = Ok (two_cross_index [0; 1]%nat)
  /\ pair_store (two_cross_index [0; 1]%nat) !! 1%nat = Some (cross_pair "chr3")
  /\ liftover (two_cross_index [0; 1]%nat) (seqname1 (cross_pair "chr3")) 3
     = (two_cross_index [0; 1]%nat, Ok (Some ("chr2", 6)))
  /\ pair_store (two_cross_index [1; 0]%nat) !! 0%nat = Some (cross_pair "chr2")
  /\ liftover (two_cross_index [1; 0]%nat) (seqname1 (cross_pair "chr2")) 3
     = (two_cross_index [1; 0]%nat, Ok (Some ("chr3", 6))).
Proof. repeat split; vm_compute; reflexivity. Qed.

(** C9 (amended).  For a pair on opposite strands whose blocks form a chain
    and which is the first candidate for its first name, and a position
    [pos] with s1 <= pos <= e1 in one of its blocks: the query from the first
    name returns (second name, s2 + (e1 - 1 - pos)), which is
    e2 - 1 - (pos - s1); and q -> s1 + (e2 - 1 - q) maps it back to [pos]. *)
Theorem liftover_cross_strand
    (self : ChainIndex) (p : nat) (pr : SeqPair) (b : GapLessBlock) (pos : Z) :
  pair_store self !! p = Some pr ->
  head (candidates self (seqname1 pr)) = Some p ->
  chain_blocks (blocks pr) ->
  strand1 pr <> strand2 pr ->
  b ∈ blocks pr ->
  s1 b <= pos <= e1 b ->
  liftover self (seqname1 pr) pos
  = (self, Ok (Some (seqname2 pr, s2 b + (e1 b - 1 - pos))))
  /\ s2 b + (e1 b - 1 - pos) = e2 b - 1 - (pos - s1 b)
  /\ s1 b + (e2 b - 1 - (s2 b + (e1 b - 1 - pos))) = pos.
Proof.
  intros Hp Hh1 Hchain Hstrand Hb Hpos.
  apply list_elem_of_lookup in Hb as [k Hk].
  destruct (chain_proper pr Hchain _ _ Hk) as [_ Hgap]. unfold gapless in Hgap.
  split; [|lia].
  apply (liftover_first_candidate _ _ _ p pr); auto.
  rewrite (visit_genome1 pr k b Hchain Hk pos Hpos).
  rewrite decide_False by assumption. reflexivity.
Qed.

Lemma liftover_cross_strand_witness :
  liftover (single_pair_index (gap_pair "chr1" "chr2" "+" "-")) "chr1" 61
  = (single_pair_index (gap_pair "chr1" "chr2" "+" "-"),
     Ok (Some ("chr2", 71 + (111 - 1 - 61))))
  /\ 71 + (111 - 1 - 61) = 121 - 1 - (61 - 61)
  /\ 61 + (121 - 1 - (71 + (111 - 1 - 61))) = 61.
Proof.
  apply (liftover_cross_strand
           (single_pair_index (gap_pair "chr1" "chr2" "+" "-")) 0%nat
           (gap_pair "chr1" "chr2" "+" "-") (Build_GapLessBlock 61 111 71 121) 61).
  - reflexivity.
  - vm_compute. reflexivity.
  - exact gap_blocks_chain.
  - discriminate.
  - apply list_elem_of_lookup. exists 1%nat. reflexivity.
  - cbn. lia.
Defined.

(** C5.  When some line of the input is malformed (a header without its
    required fields or with a start field that is not an integer; a body
    line that is neither three integers nor a single integer), the
    construction ends with an exception: no index is returned. *)
Theorem malformed_line_aborts (f : list string) (line : string) :
  line ∈ f -> malformed line = true ->
  exists e, construct_from_chain_file f = Raise e.
Proof.
  intros Hin Hbad. unfold construct_from_chain_file.
  destruct (malformed_loop f line Hin Hbad (ChainIndex_init, None)) as [e ->].
  exists e. reflexivity.
Qed.

Lemma malformed_line_aborts_witness :
  exists e,
    construct_from_chain_file
      ["chain 100 chr1 1000 + 0 100 chr2 1000 + 0 100 1"; "50 ten 20"; "50"]
    = Raise e.
Proof.
  apply (malformed_line_aborts _ "50 ten 20").
  - apply list_elem_of_lookup. exists 1%nat. reflexivity.
  - vm_compute. reflexivity.
Defined.

(** A body line as one step of the loop, once a pair is current. *)
Lemma body_line_step (cidx : ChainIndex) (p : nat) (c1 c2 : Z) (line : string)
    (sz n1 n2 : Z) :
  skipped line = Ok false -> is_header line = false ->
  body_values line = Ok (sz, n1, n2) ->
  step (cidx, Some (p, c1, c2)) line
  = Ok (pair_append cidx p (Build_GapLessBlock c1 (c1 + sz) c2 (c2 + sz)),
        Some (p, c1 + sz + n1 + 1, c2 + sz + n2 + 1)).
Proof.
  intros Hs Hh Hv. unfold step. rewrite Hs. cbn [mbind res_bind]. rewrite Hh.
  cbn [fst snd]. unfold body_values in Hv. unfold body.
  destruct (unpack line) as [[[x1 x2] x3]|]; [|discriminate]. cbn [mbind res_bind] in *.
  destruct (int x1) as [v1|]; [|discriminate]. cbn [mbind res_bind] in *.
  destruct (int x2) as [v2|]; [|discriminate]. cbn [mbind res_bind] in *.
  destruct (int x3) as [v3|]; [|discriminate]. cbn [mbind res_bind] in *.
  injection Hv as -> -> ->. reflexivity.
Qed.

Lemma header_line_step (st : ChainIndex * locals) (h : string) :
  is_header h = true -> step st h = header st.1 h.
Proof.
  intros Hh. unfold step. rewrite (header_not_skipped _ Hh). cbn [mbind res_bind].
  rewrite Hh. reflexivity.
Qed.

(** C6 (as stated, refuted).  With the two strands of the header opposite,
    the same body lines give the same two blocks, and position 61 of chr1
    lifts to 120 on chr2, not to 71. *)
Lemma gap_example_cross_strand :
  construct_from_chain_file example_gap_cross
  = Ok (single_pair_index (gap_pair "chr1" "chr2" "+" "-"))
  /\ liftover (single_pair_index (gap_pair "chr1" "chr2" "+" "-")) "chr1" 61
     = (single_pair_index (gap_pair "chr1" "chr2" "+" "-"), Ok (Some ("chr2", 120)))
  /\ (liftover (single_pair_index (gap_pair "chr1" "chr2" "+" "-")) "chr1" 61).2
     <> Ok (Some ("chr2", 71)).
Proof.
  split; [vm_compute; reflexivity|].
  split; [vm_compute; reflexivity|].
  vm_compute. discriminate.
Qed.

(** C6 (amended).  For a single chain whose header has start fields 0 and 0
    and the same strand on both sides, followed by the body lines
    [50 10 20] and [50]: the index holds one pair with exactly the blocks
    (0,50,0,50) and (61,111,71,121); the query from the first name at 61
    returns the second name with 71, and at 55 it returns [None]. *)
Theorem gap_example
    (h name1 name2 str start1 start2 : string) :
  is_header h = true ->
  Str.split h !! 2%nat = Some name1 -> Str.split h !! 7%nat = Some name2 ->
  Str.split h !! 4%nat = Some str -> Str.split h !! 9%nat = Some str ->
  Str.split h !! 5%nat = Some start1 -> Str.split h !! 10%nat = Some start2 ->
  Str.int start1 = Ok 0 -> Str.int start2 = Ok 0 ->
  construct_from_chain_file [h; "50 10 20"; "50"]
  = Ok (single_pair_index (gap_pair name1 name2 str str))
  /\ liftover (single_pair_index (gap_pair name1 name2 str str)) name1 61
     = (single_pair_index (gap_pair name1 name2 str str), Ok (Some (name2, 71)))
  /\ liftover (single_pair_index (gap_pair name1 name2 str str)) name1 55
     = (single_pair_index (gap_pair name1 name2 str str), Ok None).
Proof.
  intros Hh H2 H7 H4 H9 H5 H10 Hc1 Hc2.
  set (pr := gap_pair name1 name2 str str).
  assert (Hcand : candidates (single_pair_index pr) name1 = [0%nat]).
  { apply single_pair_candidates. left. reflexivity. }
  split; [|split].
  - unfold construct_from_chain_file. cbn [loop].
    rewrite (header_line_step _ _ Hh). cbn [fst].
    rewrite (header_init _ _ _ _ _ _ _ H2 H7 H4 H9 H5 H10), Hc1, Hc2.
    cbn [mbind res_bind].
    rewrite (body_line_step _ _ _ _ "50 10 20" 50 10 20) by reflexivity.
    cbn [mbind res_bind].
    rewrite (body_line_step _ _ _ _ "50" 50 0 0) by reflexivity.
    reflexivity.
  - apply (liftover_first_candidate _ _ _ 0%nat pr);
      [reflexivity | rewrite Hcand; reflexivity |].
    change (visit pr name1 61) with (visit pr (seqname1 pr) 61).
    rewrite (visit_genome1 pr 1%nat (Build_GapLessBlock 61 111 71 121)
               gap_blocks_chain eq_refl 61) by (cbn; lia).
    rewrite decide_True by reflexivity. reflexivity.
  - apply (liftover_only_candidate _ _ _ 0%nat pr); [reflexivity | exact Hcand |].
    unfold visit. cbn [seqname1 pr gap_pair]. rewrite decide_True by reflexivity.
    reflexivity.
Qed.

Lemma gap_example_witness :
  construct_from_chain_file
    ["chain 100 chr1 1000 + 0 111 chr2 1000 + 0 121 1"; "50 10 20"; "50"]
  = Ok (single_pair_index (gap_pair "chr1" "chr2" "+" "+"))
  /\ liftover (single_pair_index (gap_pair "chr1" "chr2" "+" "+")) "chr1" 61
     = (single_pair_index (gap_pair "chr1" "chr2" "+" "+"), Ok (Some ("chr2", 71)))
  /\ liftover (single_pair_index (gap_pair "chr1" "chr2" "+" "+")) "chr1" 55
     = (single_pair_index (gap_pair "chr1" "chr2" "+" "+"), Ok None).
Proof.
  apply (gap_example "chain 100 chr1 1000 + 0 111 chr2 1000 + 0 121 1"
           "chr1" "chr2" "+" "0" "0"); reflexivity.
Defined.

(** C7.  The two lines of the one-block example give an index with the
    single block (0,100,0,100), on which position 50 of chr1 lifts to
    (chr2, 50) and position 50 of chr2 lifts to (chr1, 50). *)
Theorem one_block_example :
  construct_from_chain_file example_one_block = Ok (single_pair_index one_block_pair)
  /\ blocks one_block_pair = [Build_GapLessBlock 0 100 0 100]
  /\ liftover (single_pair_index one_block_pair) "chr1" 50
     = (single_pair_index one_block_pair, Ok (Some ("chr2", 50)))
  /\ liftover (single_pair_index one_block_pair) "chr2" 50
     = (single_pair_index one_block_pair, Ok (Some ("chr1", 50))).
Proof. repeat split; vm_compute; reflexivity. Qed.

Lemma built_chain_blocks (f : list string) (cidx : ChainIndex) (p : nat) (pr : SeqPair) :
  nonneg_input f -> construct_from_chain_file f = Ok cidx ->
  pair_store cidx !! p = Some pr -> chain_blocks (blocks pr).
Proof.
  intros Hnn Hbuild Hp. unfold construct_from_chain_file in Hbuild.
  bind_inv Hbuild. injection Hbuild as <-.
  destruct (parse_inv_loop f Hnn _ _ parse_inv_init E) as [Hall _]. eauto.
Qed.

(** C8.  When the sizes and gaps of the body lines are non-negative, every
    pair of the index that the parser returns has blocks with
    e1 - s1 = e2 - s2, with s1 and e1 strictly increasing along the list and
    each block ending before the next one starts (in both genomes); and the
    blocks are in parse order: what a pair holds after any prefix of the
    input is a prefix of what it holds at the end. *)
Theorem parser_blocks_invariant
    (f : list string) (cidx : ChainIndex) (p : nat) (pr : SeqPair) :
  nonneg_input f ->
  construct_from_chain_file f = Ok cidx ->
  pair_store cidx !! p = Some pr ->
  (forall b, b ∈ blocks pr -> e1 b - s1 b = e2 b - s2 b)
  /\ (forall i j a b, (i < j)%nat ->
        blocks pr !! i = Some a -> blocks pr !! j = Some b ->
        s1 a < s1 b /\ e1 a < e1 b /\ e1 a < s1 b /\ e2 a < s2 b)
  /\ (forall f1 f2 st pr0, f = f1 ++ f2 ->
        loop (ChainIndex_init, None) f1 = Ok st ->
        pair_store st.1 !! p = Some pr0 ->
        blocks pr0 `prefix_of` blocks pr).
Proof.
  intros Hnn Hbuild Hp.
  pose proof (built_chain_blocks _ _ _ _ Hnn Hbuild Hp) as Hchain.
  split; [|split].
  - intros b Hb. apply list_elem_of_lookup in Hb as [k Hk].
    destruct (chain_proper pr Hchain _ _ Hk) as [_ Hgap]. exact Hgap.
  - intros i j a b Hij Ha Hb.
    destruct Hchain as [_ Hord]. destruct (Hord _ _ _ _ Hij Ha Hb) as [H1 H2].
    destruct (chain_proper pr (conj (proj1 (built_chain_blocks _ _ _ _ Hnn Hbuild Hp)) Hord)
                _ _ Ha) as [Ha1 _].
    destruct (chain_proper pr (conj (proj1 (built_chain_blocks _ _ _ _ Hnn Hbuild Hp)) Hord)
                _ _ Hb) as [Hb1 _].
    lia.
  - intros f1 f2 st pr0 -> Hloop Hp0.
    unfold construct_from_chain_file in Hbuild. bind_inv Hbuild. injection Hbuild as <-.
    rewrite loop_app, Hloop in E. cbn [mbind res_bind] in E.
    destruct (loop_extends _ _ _ E _ _ Hp0) as (pr' & Hp' & _ & _ & _ & _ & Hpre).
    rewrite Hp in Hp'. injection Hp' as <-. exact Hpre.
Qed.

Lemma parser_blocks_invariant_witness :
  (forall b, b ∈ gap_blocks -> e1 b - s1 b = e2 b - s2 b)
  /\ (forall i j a b, (i < j)%nat ->
        gap_blocks !! i = Some a -> gap_blocks !! j = Some b ->
        s1 a < s1 b /\ e1 a < e1 b /\ e1 a < s1 b /\ e2 a < s2 b)
  /\ (forall f1 f2 st pr0, example_gap_cross = f1 ++ f2 ->
        loop (ChainIndex_init, None) f1 = Ok st ->
        pair_store st.1 !! 0%nat = Some pr0 ->
        blocks pr0 `prefix_of` gap_blocks).
Proof.
  apply (parser_blocks_invariant example_gap_cross
           (single_pair_index (gap_pair "chr1" "chr2" "+" "-")) 0%nat
           (gap_pair "chr1" "chr2" "+" "-")).
  - vm_compute. reflexivity.
  - vm_compute. reflexivity.
  - reflexivity.
Defined.

(** C10 (as stated, refuted).  For a chain of chr1 with itself, the second
    name is also the first, so the query is a genome 1 query: at 100 = e2 it
    returns (chr1, 100). *)
Lemma self_chain_block_end_found :
  single_chain example_self_chain
  /\ nonneg_input example_self_chain
  /\ construct_from_chain_file example_self_chain = Ok (single_pair_index self_pair)
  /\ blocks self_pair = [Build_GapLessBlock 0 100 0 100]
  /\ liftover (single_pair_index self_pair) (seqname2 self_pair) 100
     = (single_pair_index self_pair, Ok (Some ("chr1", 100))).
Proof. repeat split; vm_compute; reflexivity. Qed.

(** C10 (amended).  For an index built from a single chain whose two names
    differ, with non-negative sizes and gaps, and every block of it: the
    query from the second name at the position e2 of the block returns
    [None]. *)
Theorem liftover_genome2_block_end_absent
    (f : list string) (cidx : ChainIndex) (p : nat) (pr : SeqPair) (b : GapLessBlock) :
  single_chain f ->
  nonneg_input f ->
  construct_from_chain_file f = Ok cidx ->
  pair_store cidx !! p = Some pr ->
  seqname1 pr <> seqname2 pr ->
  b ∈ blocks pr ->
  liftover cidx (seqname2 pr) (e2 b) = (cidx, Ok None).
Proof.
  intros Hsingle Hnn Hbuild Hp Hne Hb.
  pose proof (built_chain_blocks _ _ _ _ Hnn Hbuild Hp) as Hchain.
  destruct (single_chain_index _ _ Hsingle Hbuild) as [pr0 ->].
  destruct p as [|p]; cbn in Hp; [|destruct p; discriminate].
  injection Hp as ->.
  apply list_elem_of_lookup in Hb as [k Hk].
  apply (liftover_only_candidate _ _ _ 0%nat pr); [reflexivity| |].
  - apply single_pair_candidates. right. reflexivity.
  - apply (visit_genome2_end pr k b); assumption.
Qed.

Lemma liftover_genome2_block_end_absent_witness :
  liftover (single_pair_index (gap_pair "chr1" "chr2" "+" "-")) "chr2" 50
  = (single_pair_index (gap_pair "chr1" "chr2" "+" "-"), Ok None).
Proof.
  apply (liftover_genome2_block_end_absent example_gap_cross
           (single_pair_index (gap_pair "chr1" "chr2" "+" "-")) 0%nat
           (gap_pair "chr1" "chr2" "+" "-") (Build_GapLessBlock 0 50 0 50)).
  - reflexivity.
  - vm_compute. reflexivity.
  - vm_compute. reflexivity.
  - reflexivity.
  - discriminate.
  - apply list_elem_of_lookup. exists 0%nat. reflexivity.
Defined.

(** * Further properties *)

(** ** What the bisection functions guarantee on any list *)

Lemma bisect_left_loop_contract (a : list GapLessBlock) (x : Z) :
  forall fuel lo hi,
    (lo <= hi)%nat -> (hi <= length a)%nat -> (hi - lo <= fuel)%nat ->
    exists r, bisect_left_loop fuel a x lo hi = Ok r /\ (lo <= r <= hi)%nat
      /\ ((lo < r)%nat -> exists b, a !! (r - 1)%nat = Some b /\ e1 b < x)
      /\ ((r < hi)%nat -> exists b, a !! r = Some b /\ x <= e1 b).
Proof.
  induction fuel as [|fuel IH]; intros lo hi Hlo Hhi Hfuel; cbn [bisect_left_loop].
  - exists lo. repeat split; try lia; intros; lia.
  - destruct (Nat.ltb_spec lo hi) as [Hlt|Hge].
    2: { exists lo. repeat split; try lia; intros; lia. }
    assert (Hmid : (lo <= (lo + hi) / 2 < hi)%nat).
    { split; [apply Nat.div_le_lower_bound | apply Nat.Div0.div_lt_upper_bound]; lia. }
    set (mid := ((lo + hi) / 2)%nat) in *.
    unfold getitem.
    destruct (a !! mid) as [b|] eqn:Hb.
    2: { apply lookup_ge_None in Hb; lia. }
    cbn [mbind res_bind]. unfold GapLessBlock_lt.
    destruct (Z.ltb_spec (e1 b) x) as [Hcmp|Hcmp].
    + destruct (IH (mid + 1)%nat hi) as (r & -> & Hr & Hbefore & Hafter); try lia.
      exists r. repeat split; try lia; [|exact Hafter].
      intros _. destruct (decide (r = mid + 1)%nat) as [->|Hne].
      * exists b. split; [|assumption]. rewrite <- Hb. f_equal. lia.
      * apply Hbefore. lia.
    + destruct (IH lo mid) as (r & -> & Hr & Hbefore & Hafter); try lia.
      exists r. repeat split; try lia; [exact Hbefore|].
      intros _. destruct (decide (r = mid)) as [->|Hne].
      * exists b. split; assumption.
      * apply Hafter. lia.
Qed.

Lemma bisect_right_loop_contract (a : list GapLessBlock) (x : Z) :
  forall fuel lo hi,
    (lo <= hi)%nat -> (hi <= length a)%nat -> (hi - lo <= fuel)%nat ->
    exists r, bisect_right_loop fuel a x lo hi = Ok r /\ (lo <= r <= hi)%nat
      /\ ((lo < r)%nat -> exists b, a !! (r - 1)%nat = Some b /\ e2 b <= x)
      /\ ((r < hi)%nat -> exists b, a !! r = Some b /\ x < e2 b).
Proof.
  induction fuel as [|fuel IH]; intros lo hi Hlo Hhi Hfuel; cbn [bisect_right_loop].
  - exists lo. repeat split; try lia; intros; lia.
  - destruct (Nat.ltb_spec lo hi) as [Hlt|Hge].
    2: { exists lo. repeat split; try lia; intros; lia. }
    assert (Hmid : (lo <= (lo + hi) / 2 < hi)%nat).
    { split; [apply Nat.div_le_lower_bound | apply Nat.Div0.div_lt_upper_bound]; lia. }
    set (mid := ((lo + hi) / 2)%nat) in *.
    unfold getitem.
    destruct (a !! mid) as [b|] eqn:Hb.
    2: { apply lookup_ge_None in Hb; lia. }
    cbn [mbind res_bind]. unfold GapLessBlock_gt.
    destruct (Z.gtb_spec (e2 b) x) as [Hcmp|Hcmp].
    + destruct (IH lo mid) as (r & -> & Hr & Hbefore & Hafter); try lia.
      exists r. repeat split; try lia; [exact Hbefore|].
      intros _. destruct (decide (r = mid)) as [->|Hne].
      * exists b. split; [assumption|lia].
      * apply Hafter. lia.
    + destruct (IH (mid + 1)%nat hi) as (r & -> & Hr & Hbefore & Hafter); try lia.
      exists r. repeat split; try lia; [|exact Hafter].
      intros _. destruct (decide (r = mid + 1)%nat) as [->|Hne].
      * exists b. split; [|assumption]. rewrite <- Hb. f_equal. lia.
      * apply Hbefore. lia.
Qed.

(** X1.  On every list of blocks, sorted or not, [bisect_left] and
    [bisect_right] return an index [r] between 0 and the length of the list
    and never raise; for [bisect_left] the block before [r] (if any) has
    [e1 < x] and the block at [r] (if any) has [x <= e1]; for [bisect_right]
    the block before [r] has [e2 <= x] and the block at [r] has [x < e2]. *)
Theorem bisect_contract (a : list GapLessBlock) (x : Z) :
  (exists r, bisect_left a x = Ok r /\ (r <= length a)%nat
     /\ ((0 < r)%nat -> exists b, a !! (r - 1)%nat = Some b /\ e1 b < x)
     /\ ((r < length a)%nat -> exists b, a !! r = Some b /\ x <= e1 b))
  /\ (exists r, bisect_right a x = Ok r /\ (r <= length a)%nat
     /\ ((0 < r)%nat -> exists b, a !! (r - 1)%nat = Some b /\ e2 b <= x)
     /\ ((r < length a)%nat -> exists b, a !! r = Some b /\ x < e2 b)).
Proof.
  split.
  - destruct (bisect_left_loop_contract a x (length a) 0%nat (length a))
      as (r & Hr & Hrange & H1 & H2); try lia.
    exists r. repeat split; auto. lia.
  - destruct (bisect_right_loop_contract a x (length a) 0%nat (length a))
      as (r & Hr & Hrange & H1 & H2); try lia.
    exists r. repeat split; auto. lia.
Qed.

(** ** On a chain the bisection functions count blocks *)

Lemma filter_none {A : Type} (P : A -> bool) (l : list A) :
  (forall b, b ∈ l -> P b = false) -> List.filter P l = [].
Proof.
  induction l as [|a l IH]; intros Hall; cbn [List.filter]; [reflexivity|].
  rewrite (Hall a) by (left). apply IH. intros b Hb. apply Hall. right. exact Hb.
Qed.

Lemma filter_length_bound {A : Type} (P : A -> bool) (l : list A) :
  (length (List.filter P l) <= length l)%nat.
Proof.
  induction l as [|a l IH]; cbn [List.filter length]; [lia|].
  destruct (P a); cbn [length]; lia.
Qed.

(** When [P] can only switch from true to false along the list, the
    elements that satisfy it are a prefix, as long as their number. *)
Lemma filter_prefix {A : Type} (P : A -> bool) (l : list A) :
  (forall i j a b, (i < j)%nat -> l !! i = Some a -> l !! j = Some b ->
                   P b = true -> P a = true) ->
  forall j b, l !! j = Some b -> ((j < length (List.filter P l))%nat <-> P b = true).
Proof.
  induction l as [|a l IH]; intros Hmono j b Hb; [rewrite lookup_nil in Hb; discriminate|].
  assert (Hmono' : forall i j a b, (i < j)%nat -> l !! i = Some a -> l !! j = Some b ->
                                   P b = true -> P a = true).
  { intros i' j' a' b' Hij Ha' Hb'. apply (Hmono (S i') (S j')); [lia|exact Ha'|exact Hb']. }
  cbn [List.filter]. destruct (P a) eqn:Ha.
  - cbn [length]. destruct j as [|j].
    + injection Hb as <-. split; [auto|lia].
    + cbn in Hb. rewrite <- (IH Hmono' j b Hb). lia.
  - rewrite filter_none.
    + cbn [length]. split; [lia|]. intros Hpb.
      destruct j as [|j]; [injection Hb as <-; congruence|].
      cbn in Hb. assert (P a = true) by (apply (Hmono 0%nat (S j) a b); auto; lia).
      congruence.
    + intros c Hc. apply list_elem_of_lookup in Hc as [i Hi].
      destruct (P c) eqn:Hpc; [|reflexivity].
      assert (P a = true) by (apply (Hmono 0%nat (S i) a c); auto; lia).
      congruence.
Qed.

Lemma chain_ends_increase (l : list GapLessBlock) (i j : nat) (a b : GapLessBlock) :
  chain_blocks l -> (i < j)%nat -> l !! i = Some a -> l !! j = Some b ->
  e1 a < e1 b /\ e2 a < e2 b.
Proof.
  intros [Hp Ho] Hij Ha Hb. destruct (Ho _ _ _ _ Hij Ha Hb) as [H1 H2].
  rewrite Forall_forall in Hp.
  destruct (Hp b) as [H3 H4]; [apply list_elem_of_lookup; eauto|].
  unfold gapless in H4. lia.
Qed.

(** X2.  On the blocks of a chain, [bisect_left] returns the number of
    blocks that end before [x] in genome 1 (the index of the first block
    with [e1 >= x]), and [bisect_right] the number of blocks with [e2 <= x]
    (the index of the first block with [e2 > x]). *)
Theorem bisect_counts_on_chain (l : list GapLessBlock) (x : Z) :
  chain_blocks l ->
  bisect_left l x = Ok (count_e1_below l x)
  /\ bisect_right l x = Ok (count_e2_upto l x).
Proof.
  intros Hchain. split.
  - assert (Hpre := filter_prefix (fun b => e1 b <? x) l).
    apply bisect_left_partition; [apply filter_length_bound| |].
    + intros j b Hb Hj. apply Z.ltb_lt. eapply Hpre; eauto.
      intros i' j' a' b' Hij Ha' Hb' Hlt. apply Z.ltb_lt in Hlt. apply Z.ltb_lt.
      destruct (chain_ends_increase l i' j' a' b' Hchain Hij Ha' Hb'). lia.
    + intros j b Hb Hj. apply Z.ltb_ge.
      destruct (e1 b <? x) eqn:Hlt; [|reflexivity].
      assert ((j < count_e1_below l x)%nat); [|lia].
      eapply Hpre; eauto.
      intros i' j' a' b' Hij Ha' Hb' Hlt'. apply Z.ltb_lt in Hlt'. apply Z.ltb_lt.
      destruct (chain_ends_increase l i' j' a' b' Hchain Hij Ha' Hb'). lia.
  - assert (Hpre := filter_prefix (fun b => e2 b <=? x) l).
    apply bisect_right_partition; [apply filter_length_bound| |].
    + intros j b Hb Hj. apply Z.leb_le. eapply Hpre; eauto.
      intros i' j' a' b' Hij Ha' Hb' Hle. apply Z.leb_le in Hle. apply Z.leb_le.
      destruct (chain_ends_increase l i' j' a' b' Hchain Hij Ha' Hb'). lia.
    + intros j b Hb Hj. apply Z.leb_gt.
      destruct (e2 b <=? x) eqn:Hle; [|reflexivity].
      assert ((j < count_e2_upto l x)%nat); [|lia].
      eapply Hpre; eauto.
      intros i' j' a' b' Hij Ha' Hb' Hle'. apply Z.leb_le in Hle'. apply Z.leb_le.
      destruct (chain_ends_increase l i' j' a' b' Hchain Hij Ha' Hb'). lia.
Qed.

Lemma bisect_counts_on_chain_witness :
  bisect_left gap_blocks 55 = Ok (count_e1_below gap_blocks 55)
  /\ bisect_right gap_blocks 55 = Ok (count_e2_upto gap_blocks 55).
Proof. apply (bisect_counts_on_chain gap_blocks 55). exact gap_blocks_chain. Defined.

(** ** What a query can return, on any index *)

Lemma visit_outcome (pr : SeqPair) (seqname : string) (pos : Z) :
  match visit pr seqname pos with
  | Ok None => True
  | Ok (Some (name, q)) =>
      exists b, b ∈ blocks pr
        /\ ((seqname = seqname1 pr /\ name = seqname2 pr /\ s1 b <= pos <= e1 b
             /\ q = if decide (strand1 pr = strand2 pr) then s2 b + (pos - s1 b)
                    else s2 b + (e1 b - 1 - pos))
            \/ (seqname <> seqname1 pr /\ seqname = seqname2 pr /\ name = seqname1 pr
                /\ s2 b <= pos < e2 b
                /\ q = if decide (strand1 pr = strand2 pr) then s1 b + (pos - s2 b)
                       else s1 b + (e2 b - 1 - pos)))
  | Raise e =>
      e = IndexError /\ seqname = seqname1 pr
      /\ match last (blocks pr) with
         | Some b => e1 b < pos
         | None => True
         end
  end.
Proof.
  unfold visit.
  destruct (bisect_contract (blocks pr) pos)
    as [(r & Hl & Hrl & Hbefore & Hafter) (r' & Hr & Hrr & Hbefore' & Hafter')].
  destruct (decide (seqname = seqname1 pr)) as [Hn1|Hn1].
  - rewrite Hl. cbn [mbind res_bind]. unfold getitem.
    destruct (blocks pr !! r) as [b|] eqn:Hb; cbn [mbind res_bind boundaries].
    + destruct (Z.leb_spec (s1 b) pos); cbn [andb]; [|exact I].
      destruct (Z.leb_spec pos (e1 b)); [|exact I].
      assert (Hin : b ∈ blocks pr) by (apply list_elem_of_lookup; eauto).
      destruct (decide (strand1 pr = strand2 pr)) as [Hs|Hs];
        exists b; (split; [exact Hin|]); left; repeat split; auto.
    + apply lookup_ge_None in Hb. repeat split; auto.
      rewrite last_lookup.
      destruct (blocks pr !! pred (length (blocks pr))) as [b|] eqn:Hlast; [|exact I].
      pose proof (lookup_lt_Some _ _ _ Hlast).
      destruct Hbefore as (b' & Hb' & Hlt); [lia|].
      replace (r - 1)%nat with (pred (length (blocks pr))) in Hb' by lia. congruence.
  - destruct (decide (seqname = seqname2 pr)) as [Hn2|Hn2]; [|exact I].
    rewrite Hr. cbn [mbind res_bind].
    destruct (Nat.leb_spec (length (blocks pr)) r') as [|Hlt]; [exact I|].
    destruct (Hafter' Hlt) as (b & Hb & Hx).
    unfold getitem. rewrite Hb. cbn [mbind res_bind boundaries].
    destruct (Z.leb_spec (s2 b) pos); cbn [andb]; [|exact I].
    destruct (Z.leb_spec pos (e2 b)); [|exact I].
    assert (Hin : b ∈ blocks pr) by (apply list_elem_of_lookup; eauto).
    destruct (decide (strand1 pr = strand2 pr)) as [Hs|Hs];
      exists b; (split; [exact Hin|]); right; repeat split; auto.
Qed.

Lemma visit_all_outcome (store : list SeqPair) (seqname : string) (pos : Z)
    (it : list nat) (out : res (option (string * Z))) :
  visit_all store it seqname pos = out ->
  out = Ok None
  \/ exists p pr, p ∈ it /\ store !! p = Some pr /\ visit pr seqname pos = out
                  /\ out <> Ok None.
Proof.
  revert out. induction it as [|p it IH]; intros out Hout; cbn [visit_all] in Hout;
    [left; congruence|].
  destruct (store !! p) as [pr|] eqn:Hp.
  - destruct (visit pr seqname pos) as [[r|]|e] eqn:Hv; cbn [mbind res_bind] in Hout.
    + right. exists p, pr. subst out.
      split; [left|]. split; [assumption|]. split; [assumption|discriminate].
    + destruct (IH _ Hout) as [?|(q & pr' & Hq & ?)]; [auto|].
      right. exists q, pr'. split; [right; exact Hq|assumption].
    + right. exists p, pr. subst out.
      split; [left|]. split; [assumption|]. split; [assumption|discriminate].
  - destruct (IH _ Hout) as [?|(q & pr' & Hq & ?)]; [auto|].
    right. exists q, pr'. split; [right; exact Hq|assumption].
Qed.

(** X3.  The only exception a query can raise is [IndexError], and only
    from a candidate pair that is queried by its first name and whose block
    list is empty or whose last block ends before the position.  A query
    that is a genome 2 query for all its candidates never raises. *)
Theorem liftover_raises_only_past_last_block
    (self : ChainIndex) (seqname : string) (pos : Z) (e : exn) :
  (liftover self seqname pos).2 = Raise e ->
  e = IndexError
  /\ exists p pr,
       p ∈ candidates self seqname /\ pair_store self !! p = Some pr
       /\ seqname = seqname1 pr
       /\ match last (blocks pr) with
          | Some b => e1 b < pos
          | None => True
          end.
Proof.
  rewrite liftover_result. intros Hout.
  apply visit_all_outcome in Hout as [?|(p & pr & Hp & Hpr & Hv & _)]; [discriminate|].
  pose proof (visit_outcome pr seqname pos) as Hvo. rewrite Hv in Hvo.
  destruct Hvo as (-> & Hname & Hlast). split; [reflexivity|]. eauto 8.
Qed.

Lemma liftover_raises_only_past_last_block_witness :
  IndexError = IndexError
  /\ exists p pr,
       p ∈ candidates (single_pair_index one_block_pair) "chr1"
       /\ pair_store (single_pair_index one_block_pair) !! p = Some pr
       /\ "chr1" = seqname1 pr
       /\ match last (blocks pr) with
          | Some b => e1 b < 101
          | None => True
          end.
Proof.
  apply (liftover_raises_only_past_last_block
           (single_pair_index one_block_pair) "chr1" 101 IndexError).
  vm_compute. reflexivity.
Defined.

(** X4.  Whatever the index holds, a result [(name, q)] of a query comes
    from a block of a candidate pair that covers the position: either the
    queried name is the pair's first name, [s1 <= pos <= e1], and [q] is
    [s2 + (pos - s1)] on equal strands, [s2 + (e1 - 1 - pos)] otherwise, with
    the pair's second name; or it is only the second name,
    [s2 <= pos < e2], and [q] is [s1 + (pos - s2)] or [s1 + (e2 - 1 - pos)],
    with the pair's first name. *)
Theorem liftover_sound
    (self : ChainIndex) (seqname : string) (pos : Z) (name : string) (q : Z) :
  (liftover self seqname pos).2 = Ok (Some (name, q)) ->
  exists p pr b,
    p ∈ candidates self seqname /\ pair_store self !! p = Some pr /\ b ∈ blocks pr
    /\ ((seqname = seqname1 pr /\ name = seqname2 pr /\ s1 b <= pos <= e1 b
         /\ q = if decide (strand1 pr = strand2 pr) then s2 b + (pos - s1 b)
                else s2 b + (e1 b - 1 - pos))
        \/ (seqname <> seqname1 pr /\ seqname = seqname2 pr /\ name = seqname1 pr
            /\ s2 b <= pos < e2 b
            /\ q = if decide (strand1 pr = strand2 pr) then s1 b + (pos - s2 b)
                   else s1 b + (e2 b - 1 - pos))).
Proof.
  rewrite liftover_result. intros Hout.
  apply visit_all_outcome in Hout as [?|(p & pr & Hp & Hpr & Hv & _)]; [discriminate|].
  pose proof (visit_outcome pr seqname pos) as Hvo. rewrite Hv in Hvo.
  destruct Hvo as (b & Hb & Hcases). exists p, pr, b. auto.
Qed.

Lemma liftover_sound_witness :
  exists p pr b,
    p ∈ candidates (single_pair_index one_block_pair) "chr2"
    /\ pair_store (single_pair_index one_block_pair) !! p = Some pr /\ b ∈ blocks pr
    /\ (("chr2" = seqname1 pr /\ "chr1" = seqname2 pr /\ s1 b <= 50 <= e1 b
         /\ 50 = if decide (strand1 pr = strand2 pr) then s2 b + (50 - s1 b)
                 else s2 b + (e1 b - 1 - 50))
        \/ ("chr2" <> seqname1 pr /\ "chr2" = seqname2 pr /\ "chr1" = seqname1 pr
            /\ s2 b <= 50 < e2 b
            /\ 50 = if decide (strand1 pr = strand2 pr) then s1 b + (50 - s2 b)
                    else s1 b + (e2 b - 1 - 50))).
Proof.
  apply (liftover_sound (single_pair_index one_block_pair) "chr2" 50 "chr1" 50).
  vm_compute. reflexivity.
Defined.

(** ** Positions that no block covers *)

(** X5.  Genome 1, any block list: when the pair is the only candidate for
    its first name, the position is not past the end of the last block and
    no block has [s1 <= pos <= e1], the query returns [None] (positions in a
    gap between two blocks, and positions before the first block). *)
Theorem liftover_genome1_uncovered_absent
    (self : ChainIndex) (p : nat) (pr : SeqPair) (bl : GapLessBlock) (pos : Z) :
  pair_store self !! p = Some pr ->
  candidates self (seqname1 pr) = [p] ->
  last (blocks pr) = Some bl ->
  pos <= e1 bl ->
  Forall (fun b => ~ (s1 b <= pos <= e1 b)) (blocks pr) ->
  liftover self (seqname1 pr) pos = (self, Ok None).
Proof.
  intros Hp Hcand Hlast Hpos Hnone.
  apply (liftover_only_candidate _ _ _ p pr); auto.
  pose proof (visit_outcome pr (seqname1 pr) pos) as Hvo.
  rewrite Forall_forall in Hnone.
  destruct (visit pr (seqname1 pr) pos) as [[[name q]|]|e]; [| reflexivity |].
  - destruct Hvo as (b & Hb & [(_ & _ & Hcov & _)|(Hne & _)]); [|congruence].
    destruct (Hnone b Hb Hcov).
  - destruct Hvo as (_ & _ & Hpast). rewrite Hlast in Hpast. lia.
Qed.

Lemma liftover_genome1_uncovered_absent_witness :
  liftover (single_pair_index (gap_pair "chr1" "chr2" "+" "-")) "chr1" 55
  = (single_pair_index (gap_pair "chr1" "chr2" "+" "-"), Ok None).
Proof.
  apply (liftover_genome1_uncovered_absent
           (single_pair_index (gap_pair "chr1" "chr2" "+" "-")) 0%nat
           (gap_pair "chr1" "chr2" "+" "-") (Build_GapLessBlock 61 111 71 121) 55).
  - reflexivity.
  - vm_compute. reflexivity.
  - reflexivity.
  - cbn. lia.
  - repeat constructor; cbn; lia.
Defined.

(** X6.  Genome 2, any block list: when the pair is the only candidate for
    its second name, which is not also its first name, and no block has
    [s2 <= pos < e2], the query returns [None]; this includes the positions
    past the last block and a pair without blocks. *)
Theorem liftover_genome2_uncovered_absent
    (self : ChainIndex) (p : nat) (pr : SeqPair) (pos : Z) :
  pair_store self !! p = Some pr ->
  candidates self (seqname2 pr) = [p] ->
  seqname1 pr <> seqname2 pr ->
  Forall (fun b => ~ (s2 b <= pos < e2 b)) (blocks pr) ->
  liftover self (seqname2 pr) pos = (self, Ok None).
Proof.
  intros Hp Hcand Hne Hnone.
  apply (liftover_only_candidate _ _ _ p pr); auto.
  pose proof (visit_outcome pr (seqname2 pr) pos) as Hvo.
  rewrite Forall_forall in Hnone.
  destruct (visit pr (seqname2 pr) pos) as [[[name q]|]|e]; [| reflexivity |].
  - destruct Hvo as (b & Hb & [(Heq & _)|(_ & _ & _ & Hcov & _)]); [congruence|].
    destruct (Hnone b Hb Hcov).
  - destruct Hvo as (_ & Heq & _). congruence.
Qed.

Lemma liftover_genome2_uncovered_absent_witness :
  liftover (single_pair_index (gap_pair "chr1" "chr2" "+" "-")) "chr2" 500
  = (single_pair_index (gap_pair "chr1" "chr2" "+" "-"), Ok None).
Proof.
  apply (liftover_genome2_uncovered_absent
           (single_pair_index (gap_pair "chr1" "chr2" "+" "-")) 0%nat
           (gap_pair "chr1" "chr2" "+" "-") 500).
  - reflexivity.
  - vm_compute. reflexivity.
  - discriminate.
  - repeat constructor; cbn; lia.
Defined.

(** ** Round trips that start in genome 2, and on opposite strands *)

(** X7.  For a pair with two different names whose blocks form a chain and
    which is the first candidate for both names, and a position [q] with
    [s2 <= q < e2] in one of its blocks: the query from the second name
    returns the first name with [s1 + (q - s2)] (equal strands) or
    [s1 + (e2 - 1 - q)] (opposite strands), and the query from the first
    name at that position returns the second name with [q]. *)
Theorem liftover_genome2_round_trip
    (self : ChainIndex) (p : nat) (pr : SeqPair) (b : GapLessBlock) (q : Z) :
  pair_store self !! p = Some pr ->
  head (candidates self (seqname1 pr)) = Some p ->
  head (candidates self (seqname2 pr)) = Some p ->
  seqname1 pr <> seqname2 pr ->
  chain_blocks (blocks pr) ->
  b ∈ blocks pr ->
  s2 b <= q < e2 b ->
  liftover self (seqname2 pr) q
  = (self, Ok (Some (seqname1 pr,
                     if decide (strand1 pr = strand2 pr) then s1 b + (q - s2 b)
                     else s1 b + (e2 b - 1 - q))))
  /\ liftover self (seqname1 pr)
       (if decide (strand1 pr = strand2 pr) then s1 b + (q - s2 b)
        else s1 b + (e2 b - 1 - q))
     = (self, Ok (Some (seqname2 pr, q))).
Proof.
  intros Hp Hh1 Hh2 Hne Hchain Hb Hq.
  apply list_elem_of_lookup in Hb as [k Hk].
  destruct (chain_proper pr Hchain _ _ Hk) as [_ Hgap]. unfold gapless in Hgap.
  split.
  - apply (liftover_first_candidate _ _ _ p pr); auto.
    apply (visit_genome2 pr k b); assumption.
  - apply (liftover_first_candidate _ _ _ p pr); auto.
    rewrite (visit_genome1 pr k b Hchain Hk)
      by (destruct (decide (strand1 pr = strand2 pr)); lia).
    destruct (decide (strand1 pr = strand2 pr)); do 3 f_equal; lia.
Qed.

Lemma liftover_genome2_round_trip_witness :
  liftover (single_pair_index (gap_pair "chr1" "chr2" "+" "-")) "chr2" 80
  = (single_pair_index (gap_pair "chr1" "chr2" "+" "-"), Ok (Some ("chr1", 101)))
  /\ liftover (single_pair_index (gap_pair "chr1" "chr2" "+" "-")) "chr1" 101
     = (single_pair_index (gap_pair "chr1" "chr2" "+" "-"), Ok (Some ("chr2", 80))).
Proof.
  apply (liftover_genome2_round_trip
           (single_pair_index (gap_pair "chr1" "chr2" "+" "-")) 0%nat
           (gap_pair "chr1" "chr2" "+" "-") (Build_GapLessBlock 61 111 71 121) 80).
  - reflexivity.
  - vm_compute. reflexivity.
  - vm_compute. reflexivity.
  - discriminate.
  - exact gap_blocks_chain.
  - apply list_elem_of_lookup. exists 1%nat. reflexivity.
  - cbn. lia.
Defined.

(** X8.  For a pair on opposite strands with two different names whose
    blocks form a chain and which is the first candidate for both names, and
    a position with [s1 <= pos < e1] in one of its blocks: the query from
    the first name returns the second name with [s2 + (e1 - 1 - pos)], and
    the query from the second name at that position returns the first name
    with [pos]. *)
Theorem liftover_cross_strand_round_trip
    (self : ChainIndex) (p : nat) (pr : SeqPair) (b : GapLessBlock) (pos : Z) :
  pair_store self !! p = Some pr ->
  head (candidates self (seqname1 pr)) = Some p ->
  head (candidates self (seqname2 pr)) = Some p ->
  seqname1 pr <> seqname2 pr ->
  chain_blocks (blocks pr) ->
  strand1 pr <> strand2 pr ->
  b ∈ blocks pr ->
  s1 b <= pos < e1 b ->
  liftover self (seqname1 pr) pos
  = (self, Ok (Some (seqname2 pr, s2 b + (e1 b - 1 - pos))))
  /\ liftover self (seqname2 pr) (s2 b + (e1 b - 1 - pos))
     = (self, Ok (Some (seqname1 pr, pos))).
Proof.
  intros Hp Hh1 Hh2 Hne Hchain Hstrand Hb Hpos.
  apply list_elem_of_lookup in Hb as [k Hk].
  destruct (chain_proper pr Hchain _ _ Hk) as [_ Hgap]. unfold gapless in Hgap.
  split.
  - apply (liftover_first_candidate _ _ _ p pr); auto.
    rewrite (visit_genome1 pr k b Hchain Hk) by lia.
    rewrite decide_False by assumption. reflexivity.
  - apply (liftover_first_candidate _ _ _ p pr); auto.
    rewrite (visit_genome2 pr k b Hchain Hk) by (assumption || lia).
    rewrite decide_False by assumption. do 3 f_equal. lia.
Qed.

Lemma liftover_cross_strand_round_trip_witness :
  liftover (single_pair_index (gap_pair "chr1" "chr2" "+" "-")) "chr1" 70
  = (single_pair_index (gap_pair "chr1" "chr2" "+" "-"),
     Ok (Some ("chr2", 71 + (111 - 1 - 70))))
  /\ liftover (single_pair_index (gap_pair "chr1" "chr2" "+" "-")) "chr2"
       (71 + (111 - 1 - 70))
     = (single_pair_index (gap_pair "chr1" "chr2" "+" "-"), Ok (Some ("chr1", 70))).
Proof.
  apply (liftover_cross_strand_round_trip
           (single_pair_index (gap_pair "chr1" "chr2" "+" "-")) 0%nat
           (gap_pair "chr1" "chr2" "+" "-") (Build_GapLessBlock 61 111 71 121) 70).
  - reflexivity.
  - vm_compute. reflexivity.
  - vm_compute. reflexivity.
  - discriminate.
  - exact gap_blocks_chain.
  - discriminate.
  - apply list_elem_of_lookup. exists 1%nat. reflexivity.
  - cbn. lia.
Defined.

(** ** Queries do not influence each other *)

Lemma candidates_after_query (self : ChainIndex) (seqname : string) (pos : Z)
    (seqname' : string) :
  candidates (liftover self seqname pos).1 seqname' = candidates self seqname'.
Proof.
  unfold liftover, seqnames_getitem.
  destruct (seqnames self !! seqname) as [a|] eqn:Hname; [reflexivity|].
  cbn [fst]. unfold candidates, members. cbn [seqnames set_store pair_store].
  rewrite lookup_insert. destruct (decide (seqname = seqname')) as [<-|Hne].
  - rewrite Hname, lookup_app_r, Nat.sub_diag by lia. reflexivity.
  - destruct (seqnames self !! seqname') as [a|]; [|reflexivity].
    destruct (set_store self !! a) as [s|] eqn:Ha.
    + rewrite (lookup_app_l_Some _ _ _ _ Ha). reflexivity.
    + apply lookup_ge_None in Ha.
      rewrite lookup_app_r by lia.
      destruct (a - length (set_store self))%nat as [|[|n]]; reflexivity.
Qed.

Lemma pair_store_after_query (self : ChainIndex) (seqname : string) (pos : Z) :
  pair_store (liftover self seqname pos).1 = pair_store self.
Proof.
  unfold liftover. rewrite (surjective_pairing (seqnames_getitem self seqname)).
  apply seqnames_getitem_pair_store.
Qed.

(** X9.  The result of a query does not depend on the queries made before
    it: on the index that any query leaves behind, every query returns what
    it returns on the index before that query (the key that a query of an
    unknown name adds is bound to an empty set). *)
Theorem liftover_result_after_query
    (self : ChainIndex) (seqname : string) (pos : Z) (seqname' : string) (pos' : Z) :
  (liftover (liftover self seqname pos).1 seqname' pos').2
  = (liftover self seqname' pos').2.
Proof.
  rewrite !liftover_result, candidates_after_query, pair_store_after_query.
  reflexivity.
Qed.

(** ** The stores that the parser builds *)

Lemma header_Ok_index (cidx : ChainIndex) (line : string) (st' : ChainIndex * locals) :
  header cidx line = Ok st' ->
  exists name1 name2 str1 str2 c1 c2,
    header_fields line = Some (name1, name2, str1, str2)
    /\ seqnames st'.1
       = <[name2 := default (length (set_store cidx)) (seqnames cidx !! name1)]>
           (<[name1 := default (length (set_store cidx)) (seqnames cidx !! name1)]>
              (seqnames cidx))
    /\ set_store st'.1
       = alter (fun s => if decide (length (pair_store cidx) ∈ s) then s
                         else s ++ [length (pair_store cidx)])
           (default (length (set_store cidx)) (seqnames cidx !! name1))
           (match seqnames cidx !! name1 with
            | Some _ => set_store cidx
            | None => set_store cidx ++ [[]]
            end)
    /\ pair_store st'.1
       = pair_store cidx ++ [{| seqname1 := name1; seqname2 := name2;
                                strand1 := str1; strand2 := str2; blocks := [] |}]
    /\ st'.2 = Some (length (pair_store cidx), c1, c2).
Proof.
  unfold header, header_fields. intros H.
  bind_inv H. bind_inv H. bind_inv H. bind_inv H.
  apply getitem_Ok in E, E0, E1, E2. rewrite E, E0, E1, E2. cbn [mbind option_bind].
  unfold new_pair, seqnames_getitem at 1 in H.
  cbn [seqnames set_store pair_store] in H.
  destruct (seqnames cidx !! v) as [a|] eqn:Hname;
    unfold seqnames_getitem, set_add in H; cbn [seqnames set_store pair_store] in H.
  - rewrite Hname in H. bind_inv H. bind_inv H. bind_inv H. bind_inv H.
    injection H as <-. exists v, v0, v1, v2, v4, v6. rewrite Hname.
    cbn [default from_option fst snd seqnames set_store pair_store seqnames_setitem].
    rewrite (insert_id (seqnames cidx) v a Hname). auto 6.
  - rewrite lookup_insert_eq in H. bind_inv H. bind_inv H. bind_inv H. bind_inv H.
    injection H as <-. exists v, v0, v1, v2, v4, v6. rewrite Hname.
    cbn [default from_option fst snd seqnames set_store pair_store seqnames_setitem].
    auto 6.
Qed.

Lemma heap_inv_init : heap_inv (ChainIndex_init, None).
Proof.
  split; [|split]; cbn; [| |reflexivity].
  - intros key a H. rewrite lookup_empty in H. discriminate.
  - intros a s H. rewrite lookup_nil in H. discriminate.
Qed.

Lemma heap_inv_header (st st' : ChainIndex * locals) (line : string) :
  heap_inv st -> header st.1 line = Ok st' -> heap_inv st'.
Proof.
  intros (Hnames & Hsets & _) H.
  apply header_Ok_index in H
    as (name1 & name2 & str1 & str2 & c1 & c2 & _ & Hsn & Hss & Hps & Hv).
  set (p := length (pair_store st.1)) in *.
  set (a := default (length (set_store st.1)) (seqnames st.1 !! name1)) in *.
  set (base := match seqnames st.1 !! name1 with
               | Some _ => set_store st.1
               | None => set_store st.1 ++ [[]]
               end) in *.
  assert (Hbase : forall a' s, base !! a' = Some s ->
            NoDup s /\ forall q, q ∈ s -> (q < p)%nat).
  { intros a' s. unfold base. destruct (seqnames st.1 !! name1); [apply Hsets|].
    intros Hs. apply lookup_snoc_Some in Hs as [[_ Hs]|[_ <-]]; [eauto|].
    split; [constructor|]. intros q Hq. apply elem_of_nil in Hq. contradiction. }
  assert (Hlen : (length (set_store st.1) <= length base)%nat).
  { unfold base. destruct (seqnames st.1 !! name1); rewrite ?length_app; cbn; lia. }
  assert (Ha : (a < length base)%nat).
  { unfold a, base. destruct (seqnames st.1 !! name1) as [a0|] eqn:Hn; cbn.
    - eauto.
    - rewrite length_app. cbn. lia. }
  destruct (lookup_lt_is_Some_2 _ _ Ha) as [s0 Hs0].
  destruct (Hbase _ _ Hs0) as [Hnd0 Hlt0].
  unfold heap_inv. rewrite Hsn, Hss, Hps, Hv, length_alter, length_app. cbn [length].
  fold p. split; [|split].
  - intros key a'. rewrite !lookup_insert.
    destruct (decide (name2 = key)); [intros [= <-]; lia|].
    destruct (decide (name1 = key)); [intros [= <-]; lia|].
    intros Hk. specialize (Hnames _ _ Hk). lia.
  - intros a' s. rewrite list_lookup_alter.
    destruct (decide (a = a')) as [<-|Hne].
    + rewrite Hs0. cbn. intros [= <-].
      destruct (decide (p ∈ s0)) as [Hin|Hnin].
      * split; [assumption|]. intros q Hq. specialize (Hlt0 _ Hq). lia.
      * split.
        -- apply NoDup_app. repeat split; [assumption| |apply NoDup_singleton].
           intros q Hq Hq'. apply list_elem_of_singleton in Hq' as ->. contradiction.
        -- intros q Hq. apply elem_of_app in Hq as [Hq|Hq].
           ++ specialize (Hlt0 _ Hq). lia.
           ++ apply list_elem_of_singleton in Hq as ->. lia.
    + intros Hs. destruct (Hbase _ _ Hs) as [Hnd Hlt]. split; [assumption|].
      intros q Hq. specialize (Hlt _ Hq). lia.
  - split; [lia|].
    eexists _, a. split; [apply list_lookup_middle; reflexivity|]. cbn [seqname1 seqname2].
    split; [|split].
    + rewrite lookup_insert. destruct (decide (name2 = name1)); [reflexivity|].
      apply lookup_insert_eq.
    + apply lookup_insert_eq.
    + unfold members. cbn [set_store]. rewrite Hss, list_lookup_alter_eq, Hs0. cbn.
      destruct (decide (p ∈ s0)); [assumption|].
      apply elem_of_app. right. apply list_elem_of_singleton. reflexivity.
Qed.

Lemma heap_inv_step (st st' : ChainIndex * locals) (line : string) :
  heap_inv st -> step st line = Ok st' -> heap_inv st'.
Proof.
  intros Hinv Hstep.
  apply step_Ok_inv in Hstep as [[_ ->]|[(_ & _ & H)|(_ & _ & H)]];
    [assumption|eauto using heap_inv_header|].
  apply body_Ok_inv in H as (p & c1 & c2 & sz & n1 & n2 & Hv & _ & ->).
  destruct Hinv as (Hnames & Hsets & Hcur). rewrite Hv in Hcur.
  destruct Hcur as (Hp & pr & a & Hpr & Hn1 & Hn2 & Hmem).
  unfold heap_inv. cbn [fst snd pair_append seqnames set_store pair_store].
  rewrite length_alter. split; [assumption|]. split; [assumption|].
  split; [assumption|].
  exists (append pr (Build_GapLessBlock c1 (c1 + sz) c2 (c2 + sz))), a.
  rewrite list_lookup_alter_eq, Hpr. cbn. auto.
Qed.

Lemma heap_inv_loop (f : list string) :
  forall st st' : ChainIndex * locals,
    heap_inv st -> loop st f = Ok st' -> heap_inv st'.
Proof.
  induction f as [|line f IH]; intros st st' Hinv Hloop; cbn [loop] in Hloop.
  - injection Hloop as <-. assumption.
  - bind_inv Hloop. eauto using heap_inv_step.
Qed.

Lemma built_heap_inv (f : list string) (cidx : ChainIndex) :
  construct_from_chain_file f = Ok cidx ->
  exists vars, heap_inv (cidx, vars).
Proof.
  unfold construct_from_chain_file. intros H. bind_inv H. injection H as <-.
  exists v.2. rewrite <- surjective_pairing.
  exact (heap_inv_loop f _ _ heap_inv_init E).
Qed.

(** X10.  In every index that the parser returns, each registered name is
    bound to an existing set object, each member of a set is an existing
    pair object, and no set holds a pair twice. *)
Theorem built_index_closed (f : list string) (cidx : ChainIndex) :
  construct_from_chain_file f = Ok cidx ->
  (forall key a, seqnames cidx !! key = Some a -> is_Some (set_store cidx !! a))
  /\ (forall a s p, set_store cidx !! a = Some s -> p ∈ s ->
                    is_Some (pair_store cidx !! p))
  /\ (forall a s, set_store cidx !! a = Some s -> NoDup s).
Proof.
  intros Hbuild. destruct (built_heap_inv _ _ Hbuild) as (vars & Hnames & Hsets & _).
  cbn [fst] in *. split; [|split].
  - intros key a Hk. apply lookup_lt_is_Some. eauto.
  - intros a s p Hs Hp. apply lookup_lt_is_Some. destruct (Hsets _ _ Hs) as [_ Hlt]. auto.
  - intros a s Hs. destruct (Hsets _ _ Hs) as [Hnd _]. assumption.
Qed.

Lemma built_index_closed_witness :
  (forall key a, seqnames (single_pair_index one_block_pair) !! key = Some a ->
                 is_Some (set_store (single_pair_index one_block_pair) !! a))
  /\ (forall a s p, set_store (single_pair_index one_block_pair) !! a = Some s -> p ∈ s ->
                    is_Some (pair_store (single_pair_index one_block_pair) !! p))
  /\ (forall a s, set_store (single_pair_index one_block_pair) !! a = Some s -> NoDup s).
Proof.
  apply (built_index_closed example_one_block (single_pair_index one_block_pair)).
  vm_compute. reflexivity.
Defined.

(** X11.  In every index that the parser returns, the pair of the last
    header line is registered under both of its names, and both names are
    bound to one and the same set object. *)
Theorem last_chain_registered (f : list string) (cidx : ChainIndex) (pr : SeqPair) :
  construct_from_chain_file f = Ok cidx ->
  last (pair_store cidx) = Some pr ->
  seqnames cidx !! seqname1 pr = seqnames cidx !! seqname2 pr
  /\ registered cidx (seqname1 pr) (pred (length (pair_store cidx))) = true
  /\ registered cidx (seqname2 pr) (pred (length (pair_store cidx))) = true.
Proof.
  intros Hbuild Hlast.
  destruct (built_heap_inv _ _ Hbuild) as (vars & _ & _ & Hcur). cbn [fst snd] in Hcur.
  rewrite last_lookup in Hlast.
  destruct vars as [[[p c1] c2]|].
  - destruct Hcur as (Hp & pr' & a & Hpr & Hn1 & Hn2 & Hmem).
    rewrite <- Hp in *. cbn [pred] in *. rewrite Hlast in Hpr. injection Hpr as <-.
    unfold registered. rewrite Hn1, Hn2.
    rewrite bool_decide_eq_true_2 by assumption. auto.
  - rewrite Hcur in Hlast. discriminate.
Qed.

Lemma last_chain_registered_witness :
  exists cidx pr,
    construct_from_chain_file example_shared_partner = Ok cidx
    /\ last (pair_store cidx) = Some pr
    /\ seqnames cidx !! seqname1 pr = seqnames cidx !! seqname2 pr
    /\ registered cidx (seqname1 pr) (pred (length (pair_store cidx))) = true
    /\ registered cidx (seqname2 pr) (pred (length (pair_store cidx))) = true.
Proof.
  eexists _, _. split; [vm_compute; reflexivity|]. split; [reflexivity|].
  eapply (last_chain_registered example_shared_partner).
  - vm_compute. reflexivity.
  - reflexivity.
Defined.

(** ** Pairs and blocks against the lines of the input *)

(** Lines after a header leave the pairs before that header alone. *)
Lemma loop_frozen (n : nat) (f : list string) :
  forall st st' : ChainIndex * locals,
    loop st f = Ok st' ->
    (n <= length (pair_store st.1))%nat ->
    match st.2 with Some (q, _, _) => (n <= q)%nat | None => True end ->
    forall p, (p < n)%nat -> pair_store st'.1 !! p = pair_store st.1 !! p.
Proof.
  induction f as [|line f IH]; intros st st' Hloop Hlen Hcur p Hp; cbn [loop] in Hloop.
  - injection Hloop as <-. reflexivity.
  - bind_inv Hloop.
    apply step_Ok_inv in E as [[_ ->]|[(_ & _ & H)|(_ & _ & H)]]; [eauto| |].
    + apply header_Ok_index in H as (? & ? & ? & ? & ? & ? & _ & _ & _ & Hps & Hv).
      rewrite (IH _ _ Hloop); [| |rewrite Hv|]; try lia.
      * rewrite Hps. apply lookup_app_l. lia.
      * rewrite Hps, length_app. lia.
    + apply body_Ok_inv in H as (q & c1 & c2 & sz & n1 & n2 & Hv & _ & ->).
      rewrite Hv in Hcur.
      rewrite (IH _ _ Hloop); cbn [fst snd pair_append pair_store]; try lia.
      * apply list_lookup_alter_ne. lia.
      * rewrite length_alter. lia.
Qed.

(** Between two headers, each body line adds one block to the current pair
    and nothing else changes it. *)
Lemma loop_chain_body (f : list string) :
  Forall (fun line => is_header line = false) f ->
  forall (st st' : ChainIndex * locals) q c1 c2 pr,
    loop st f = Ok st' -> st.2 = Some (q, c1, c2) -> pair_store st.1 !! q = Some pr ->
    exists pr' c1' c2',
      st'.2 = Some (q, c1', c2') /\ pair_store st'.1 !! q = Some pr'
      /\ pair_fields pr' = pair_fields pr
      /\ length (blocks pr')
         = (length (blocks pr) + length (List.filter is_body f))%nat.
Proof.
  induction 1 as [|line f Hline _ IH]; intros st st' q c1 c2 pr Hloop Hv Hq;
    cbn [loop] in Hloop.
  - injection Hloop as <-. exists pr, c1, c2. cbn. auto with lia.
  - bind_inv Hloop. cbn [List.filter]. unfold is_body at 1.
    apply step_Ok_inv in E as [[Hs ->]|[(_ & Hh & _)|(Hs & _ & H)]]; [|congruence|].
    + rewrite Hs. exact (IH _ _ _ _ _ _ Hloop Hv Hq).
    + rewrite Hs, Hline. cbn [negb length].
      apply body_Ok_inv in H as (q' & d1 & d2 & sz & n1 & n2 & Hv' & _ & ->).
      rewrite Hv in Hv'. injection Hv' as <- <- <-.
      destruct (IH _ _ q _ _ (append pr (Build_GapLessBlock c1 (c1 + sz) c2 (c2 + sz)))
                  Hloop eq_refl) as (pr' & c1' & c2' & Hv' & Hq' & Hf & Hlen).
      { cbn [fst pair_append pair_store]. rewrite list_lookup_alter_eq, Hq. reflexivity. }
      exists pr', c1', c2'. repeat split; try assumption.
      rewrite Hlen. cbn [append blocks]. rewrite length_app. cbn. lia.
Qed.

(** X12.  Each chain of the input gives one pair: the pair that a header
    line creates has the names and strands of tokens 2, 7, 4 and 9 of that
    line and, in the returned index, exactly as many blocks as there are
    body lines between that header and the next header (or the end of the
    input). *)
Theorem chain_pair_blocks
    (f1 f2 f3 : list string) (h : string) (st1 : ChainIndex * locals) (cidx : ChainIndex) :
  is_header h = true ->
  Forall (fun line => is_header line = false) f2 ->
  head (is_header <$> f3) <> Some false ->
  loop (ChainIndex_init, None) f1 = Ok st1 ->
  construct_from_chain_file (f1 ++ h :: f2 ++ f3) = Ok cidx ->
  exists pr,
    pair_store cidx !! length (pair_store st1.1) = Some pr
    /\ header_fields h = Some (pair_fields pr)
    /\ length (blocks pr) = length (List.filter is_body f2).
Proof.
  intros Hh Hf2 Hf3 Hf1 Hbuild.
  unfold construct_from_chain_file in Hbuild.
  apply bind_Ok_inv in Hbuild as (st & E & Hbuild). injection Hbuild as <-.
  rewrite loop_app, Hf1 in E. cbn [mbind res_bind loop] in E.
  apply bind_Ok_inv in E as (st2 & Eh & E).
  rewrite (header_line_step _ _ Hh) in Eh.
  apply header_Ok_index in Eh
    as (name1 & name2 & str1 & str2 & c1 & c2 & Hf & _ & _ & Hps & Hv).
  rewrite loop_app in E. apply bind_Ok_inv in E as (st3 & E2 & E3).
  set (n := length (pair_store st1.1)) in *.
  destruct (loop_chain_body f2 Hf2 _ _ n c1 c2
              {| seqname1 := name1; seqname2 := name2;
                 strand1 := str1; strand2 := str2; blocks := [] |} E2 Hv)
    as (pr & c1' & c2' & Hv3 & Hq3 & Hfields & Hlen).
  { rewrite Hps. apply list_lookup_middle. reflexivity. }
  exists pr. rewrite Hf, Hfields, Hlen. split; [|split; reflexivity].
  destruct f3 as [|h' f3]; cbn [loop] in E3.
  - injection E3 as <-. assumption.
  - assert (Hh' : is_header h' = true).
    { cbn in Hf3. destruct (is_header h'); [reflexivity|congruence]. }
    apply bind_Ok_inv in E3 as (st4 & Eh' & E4).
    rewrite (header_line_step _ _ Hh') in Eh'.
    apply header_Ok_index in Eh' as (? & ? & ? & ? & ? & ? & _ & _ & _ & Hps' & Hv').
    pose proof (lookup_lt_Some _ _ _ Hq3) as Hlt.
    rewrite (loop_frozen (length (pair_store st3.1)) _ _ _ E4); try assumption.
    + rewrite Hps'. apply lookup_app_l_Some. assumption.
    + rewrite Hps', length_app. lia.
    + rewrite Hv'. lia.
Qed.

Lemma chain_pair_blocks_witness :
  match construct_from_chain_file example_shared_partner with
  | Ok cidx =>
      exists pr,
        pair_store cidx !! 0%nat = Some pr
        /\ header_fields "chain 1 chr1 10 + 0 5 chr2 10 + 0 5 1" = Some (pair_fields pr)
        /\ length (blocks pr) = length (List.filter is_body ["5"])
  | Raise _ => False
  end.
Proof.
  destruct (construct_from_chain_file example_shared_partner) as [cidx|e] eqn:E.
  - apply (chain_pair_blocks
             [] ["5"] ["chain 1 chr3 10 + 0 5 chr2 10 + 0 5 2"; "5"]
             "chain 1 chr1 10 + 0 5 chr2 10 + 0 5 1" (ChainIndex_init, None) cidx);
      [reflexivity | repeat constructor | cbn; discriminate | reflexivity | exact E].
  - vm_compute in E. discriminate.
Defined.

Lemma gapless_step (st st' : ChainIndex * locals) (line : string) :
  (forall p pr, pair_store st.1 !! p = Some pr -> Forall gapless (blocks pr)) ->
  step st line = Ok st' ->
  forall p pr, pair_store st'.1 !! p = Some pr -> Forall gapless (blocks pr).
Proof.
  intros Hinv E p pr.
  apply step_Ok_inv in E as [[_ ->]|[(_ & _ & H)|(_ & _ & H)]]; [apply Hinv| |].
  - apply header_Ok_index in H as (? & ? & ? & ? & ? & ? & _ & _ & _ & Hps & _).
    rewrite Hps. intros Hp.
    apply lookup_snoc_Some in Hp as [[_ Hp]|[_ <-]]; [eauto|constructor].
  - apply body_Ok_inv in H as (q & c1 & c2 & sz & n1 & n2 & _ & _ & ->).
    cbn [fst pair_append pair_store]. rewrite list_lookup_alter.
    destruct (decide (q = p)) as [->|_]; [|apply Hinv].
    destruct (pair_store st.1 !! p) as [pr0|] eqn:Hp0; [|discriminate].
    cbn. intros [= <-]. cbn. apply Forall_app. split; [eauto|].
    constructor; [|constructor]. unfold gapless. cbn. lia.
Qed.

Lemma gapless_loop (f : list string) :
  forall st st' : ChainIndex * locals,
    (forall p pr, pair_store st.1 !! p = Some pr -> Forall gapless (blocks pr)) ->
    loop st f = Ok st' ->
    forall p pr, pair_store st'.1 !! p = Some pr -> Forall gapless (blocks pr).
Proof.
  induction f as [|line f IH]; intros st st' Hinv Hloop; cbn [loop] in Hloop.
  - injection Hloop as <-. assumption.
  - bind_inv Hloop. eapply IH; [|eassumption]. eauto using gapless_step.
Qed.

(** X13.  Every block of every index that the parser returns is a run of
    the same length in both genomes, [e1 - s1 = e2 - s2], whatever the signs
    of the sizes and gaps in the input. *)
Theorem built_blocks_gapless
    (f : list string) (cidx : ChainIndex) (p : nat) (pr : SeqPair) (b : GapLessBlock) :
  construct_from_chain_file f = Ok cidx ->
  pair_store cidx !! p = Some pr -> b ∈ blocks pr ->
  e1 b - s1 b = e2 b - s2 b.
Proof.
  unfold construct_from_chain_file. intros H Hp Hb. bind_inv H. injection H as <-.
  assert (Hall : Forall gapless (blocks pr)).
  { eapply (gapless_loop f (ChainIndex_init, None)); [|eassumption|eassumption].
    intros q pr0 Hq. cbn in Hq. rewrite lookup_nil in Hq. discriminate. }
  rewrite Forall_forall in Hall. exact (Hall b Hb).
Qed.

Lemma built_blocks_gapless_witness : 100 - 0 = 100 - 0.
Proof.
  apply (built_blocks_gapless example_one_block (single_pair_index one_block_pair)
           0%nat one_block_pair (Build_GapLessBlock 0 100 0 100)).
  - vm_compute. reflexivity.
  - reflexivity.
  - apply list_elem_of_singleton. reflexivity.
Defined.

(** ** Comment lines, blank lines, and lines out of place *)

Lemma comment_or_blank_skipped (line : string) :
  Str.startswith line "#" = true \/ (line <> "" /\ Str.rstrip line = "") ->
  skipped line = Ok true.
Proof.
  unfold skipped. destruct line as [|c s]; intros [H|[H1 H2]];
    [discriminate | congruence | |].
  - cbn [Str.startswith] in H. apply andb_true_iff in H as [Hc _].
    apply Ascii.eqb_eq in Hc as <-. reflexivity.
  - rewrite H2. rewrite orb_true_r. reflexivity.
Qed.

Lemma loop_skipped (f : list string) (st : ChainIndex * locals) :
  Forall (fun line => skipped line = Ok true) f -> loop st f = Ok st.
Proof.
  induction 1 as [|line f Hline _ IH]; cbn [loop]; [reflexivity|].
  unfold step. rewrite Hline. cbn [mbind res_bind]. exact IH.
Qed.

(** X14.  A line that starts with [#], and a non-empty line of whitespace
    only, has no effect: the construction gives the same outcome (the same
    index or the same exception) with the line as without it. *)
Theorem skipped_line_ignored (f1 f2 : list string) (line : string) :
  Str.startswith line "#" = true \/ (line <> "" /\ Str.rstrip line = "") ->
  construct_from_chain_file (f1 ++ line :: f2) = construct_from_chain_file (f1 ++ f2).
Proof.
  intros Hline. apply comment_or_blank_skipped in Hline.
  unfold construct_from_chain_file. rewrite !loop_app. cbn [loop].
  destruct (loop (ChainIndex_init, None) f1) as [st|e]; cbn [mbind res_bind]; [|reflexivity].
  unfold step. rewrite Hline. reflexivity.
Qed.

Lemma skipped_line_ignored_witness :
  construct_from_chain_file
    (["chain 100 chr1 1000 + 0 100 chr2 1000 + 0 100 1"] ++ "# comment" :: ["100"])
  = construct_from_chain_file
      (["chain 100 chr1 1000 + 0 100 chr2 1000 + 0 100 1"] ++ ["100"]).
Proof.
  apply (skipped_line_ignored _ _ "# comment"). left. reflexivity.
Defined.

(** X15.  A body line that comes before the first header line aborts the
    construction: no pair exists yet to append its block to (and when its
    fields do not parse, that is raised first). *)
Theorem body_line_before_header_fails (pre rest : list string) (line : string) :
  Forall (fun l => skipped l = Ok true) pre ->
  is_body line = true ->
  exists e, construct_from_chain_file (pre ++ line :: rest) = Raise e.
Proof.
  intros Hpre Hbody. unfold is_body in Hbody.
  destruct (skipped line) as [[|]|] eqn:Hs; try discriminate.
  apply negb_true_iff in Hbody.
  unfold construct_from_chain_file. rewrite loop_app, (loop_skipped _ _ Hpre).
  cbn [mbind res_bind loop]. unfold step. rewrite Hs. cbn [mbind res_bind].
  rewrite Hbody. cbn [fst snd]. unfold body.
  destruct (unpack line) as [[[sz n1] n2]|e] eqn:Hu; cbn [mbind res_bind]; [|eauto].
  destruct (int sz) as [size|e] eqn:Hi; cbn [mbind res_bind]; eauto.
Qed.

Lemma body_line_before_header_fails_witness :
  exists e, construct_from_chain_file (["# liftover"] ++ "100" :: []) = Raise e.
Proof.
  apply (body_line_before_header_fails ["# liftover"] [] "100").
  - repeat constructor.
  - reflexivity.
Defined.

(** ** A header closes the pairs before it *)

(** X16.  A header line closes the pairs before it: the pairs that exist
    when a header line is read are the same in the returned index, however
    many body lines follow.  Body lines only reach the pair of the header
    before them. *)
Theorem header_closes_earlier_pairs
    (f1 f2 : list string) (h : string) (st1 : ChainIndex * locals)
    (cidx : ChainIndex) (p : nat) (pr : SeqPair) :
  is_header h = true ->
  loop (ChainIndex_init, None) f1 = Ok st1 ->
  construct_from_chain_file (f1 ++ h :: f2) = Ok cidx ->
  pair_store st1.1 !! p = Some pr ->
  pair_store cidx !! p = Some pr.
Proof.
  intros Hh Hf1 Hbuild Hp.
  unfold construct_from_chain_file in Hbuild. bind_inv Hbuild. injection Hbuild as <-.
  rewrite loop_app, Hf1 in E. cbn [mbind res_bind loop] in E. bind_inv E.
  rewrite (header_line_step _ _ Hh) in E0.
  apply header_Ok_index in E0 as (? & ? & ? & ? & ? & ? & _ & _ & _ & Hps & Hv).
  pose proof (lookup_lt_Some _ _ _ Hp) as Hlt.
  rewrite (loop_frozen (length (pair_store st1.1)) _ _ _ E); try assumption.
  - rewrite Hps. apply lookup_app_l_Some. assumption.
  - rewrite Hps, length_app. lia.
  - rewrite Hv. lia.
Qed.

Lemma header_closes_earlier_pairs_witness :
  exists cidx,
    construct_from_chain_file example_shared_partner = Ok cidx
    /\ pair_store cidx !! 0%nat
       = Some {| seqname1 := "chr1"; seqname2 := "chr2"; strand1 := "+"; strand2 := "+";
                 blocks := [Build_GapLessBlock 0 5 0 5] |}.
Proof.
  eexists. split; [vm_compute; reflexivity|].
  eapply (header_closes_earlier_pairs
            ["chain 1 chr1 10 + 0 5 chr2 10 + 0 5 1"; "5"] ["5"]
            "chain 1 chr3 10 + 0 5 chr2 10 + 0 5 2").
  - reflexivity.
  - vm_compute. reflexivity.
  - vm_compute. reflexivity.
  - reflexivity.
Defined.

(** X17.  An empty string among the lines aborts the construction: the test
    [line[0] == '#'] has no character to read.  (Lines read from a file end
    in a newline and are never empty; a list of lines split by hand can
    hold one.) *)
Theorem empty_line_aborts (f : list string) :
  "" ∈ f -> exists e, construct_from_chain_file f = Raise e.
Proof.
  intros Hin. unfold construct_from_chain_file.
  assert (Hloop : forall st, failed (loop st f)).
  { remember "" as line eqn:Hline.
    induction Hin as [line f|line other f _ IH]; intros st; cbn [loop].
    - subst line. exists IndexError. reflexivity.
    - destruct (step st other) as [st'|e]; cbn [mbind res_bind]; [apply IH, Hline|].
      exists e. reflexivity. }
  destruct (Hloop (ChainIndex_init, None)) as [e ->]. exists e. reflexivity.
Qed.

Lemma empty_line_aborts_witness :
  exists e,
    construct_from_chain_file
      ["chain 100 chr1 1000 + 0 100 chr2 1000 + 0 100 1"; "100"; ""] = Raise e.
Proof.
  apply (empty_line_aborts
           ["chain 100 chr1 1000 + 0 100 chr2 1000 + 0 100 1"; "100"; ""]).
  apply list_elem_of_lookup. exists 2%nat. reflexivity.
Defined.

(** ** When a registration is kept *)

Lemma registered_step (st st' : ChainIndex * locals) (line : string) (n : string) (p : nat) :
  heap_inv st ->
  (is_header line = true -> Str.split line !! 7%nat <> Some n) ->
  step st line = Ok st' ->
  registered st.1 n p = true -> registered st'.1 n p = true.
Proof.
  intros (Hnames & _ & _) Hline Hstep Hreg.
  apply step_Ok_inv in Hstep as [[_ ->]|[(_ & Hh & H)|(_ & _ & H)]]; [assumption| |].
  - pose proof H as H0.
    apply header_Ok_inv in H0 as (? & name2' & ? & ? & ? & ? & ? & ? & _ & H7 & _).
    apply header_Ok_index in H
      as (name1 & name2 & str1 & str2 & c1 & c2 & Hf & Hsn & Hss & _ & _).
    assert (name2 = name2').
    { unfold header_fields in Hf. rewrite H7 in Hf.
      destruct (Str.split line !! 2%nat); [|discriminate].
      destruct (Str.split line !! 4%nat); [|discriminate].
      destruct (Str.split line !! 9%nat); [|discriminate].
      cbn in Hf. congruence. }
    subst name2'. specialize (Hline Hh). rewrite H7 in Hline.
    unfold registered, members in *. rewrite Hsn, Hss.
    destruct (seqnames st.1 !! n) as [a|] eqn:Hn; [|discriminate].
    apply bool_decide_eq_true in Hreg.
    destruct (set_store st.1 !! a) as [s|] eqn:Hs;
      [|cbn in Hreg; apply elem_of_nil in Hreg; contradiction].
    cbn in Hreg.
    rewrite lookup_insert_ne by congruence.
    assert (Hlook : <[name1 := default (length (set_store st.1)) (seqnames st.1 !! name1)]>
                      (seqnames st.1) !! n = Some a).
    { rewrite lookup_insert. destruct (decide (name1 = n)) as [->|_]; [|exact Hn].
      rewrite Hn. reflexivity. }
    rewrite Hlook. apply bool_decide_eq_true.
    assert (Hbase : match seqnames st.1 !! name1 with
                    | Some _ => set_store st.1
                    | None => set_store st.1 ++ [[]]
                    end !! a = Some s).
    { destruct (seqnames st.1 !! name1); [exact Hs|apply lookup_app_l_Some, Hs]. }
    rewrite list_lookup_alter.
    destruct (decide (default (length (set_store st.1)) (seqnames st.1 !! name1) = a))
      as [Heq|Hne]; [rewrite Heq|]; rewrite Hbase; cbn; [|assumption].
    destruct (decide (length (pair_store st.1) ∈ s)); [assumption|].
    apply elem_of_app. left. assumption.
  - apply body_Ok_inv in H as (q & c1 & c2 & sz & n1 & n2 & _ & _ & ->). exact Hreg.
Qed.

Lemma registered_loop (n : string) (p : nat) (f : list string) :
  Forall (fun line => is_header line = true -> Str.split line !! 7%nat <> Some n) f ->
  forall st st' : ChainIndex * locals,
    heap_inv st -> loop st f = Ok st' ->
    registered st.1 n p = true -> registered st'.1 n p = true.
Proof.
  induction 1 as [|line f Hline _ IH]; intros st st' Hinv Hloop Hreg; cbn [loop] in Hloop.
  - injection Hloop as <-. assumption.
  - bind_inv Hloop. eapply IH; [|eassumption|]; eauto using heap_inv_step, registered_step.
Qed.

(** X18.  The pair of a header line stays registered under one of its two
    names as long as no later header line has that name as its second
    sequence (token 7): then, in the returned index, the pair is a member of
    the set bound to that name. *)
Theorem registration_kept
    (f1 f2 : list string) (h : string) (st1 : ChainIndex * locals) (cidx : ChainIndex)
    (name1 name2 str1 str2 n : string) :
  is_header h = true ->
  header_fields h = Some (name1, name2, str1, str2) ->
  n = name1 \/ n = name2 ->
  Forall (fun line => is_header line = true -> Str.split line !! 7%nat <> Some n) f2 ->
  loop (ChainIndex_init, None) f1 = Ok st1 ->
  construct_from_chain_file (f1 ++ h :: f2) = Ok cidx ->
  registered cidx n (length (pair_store st1.1)) = true.
Proof.
  intros Hh Hf Hn Hlater Hf1 Hbuild.
  unfold construct_from_chain_file in Hbuild. bind_inv Hbuild. injection Hbuild as <-.
  rewrite loop_app, Hf1 in E. cbn [mbind res_bind loop] in E. bind_inv E.
  rewrite (header_line_step _ _ Hh) in E0.
  pose proof (heap_inv_loop _ _ _ heap_inv_init Hf1) as Hinv1.
  pose proof (heap_inv_header _ _ _ Hinv1 E0) as Hinv2.
  apply (registered_loop n _ f2 Hlater v0 v Hinv2 E).
  destruct Hinv2 as (_ & _ & Hcur).
  apply header_Ok_index in E0
    as (name1' & name2' & str1' & str2' & c1 & c2 & Hf' & _ & _ & Hps & Hv).
  rewrite Hf in Hf'. injection Hf' as <- <- <- <-.
  rewrite Hv in Hcur. destruct Hcur as (_ & pr & a & Hpr & Hn1 & Hn2 & Hmem).
  rewrite Hps, list_lookup_middle in Hpr by reflexivity. injection Hpr as <-.
  cbn [seqname1 seqname2] in *.
  unfold registered. destruct Hn as [-> | ->]; rewrite ?Hn1, ?Hn2;
    apply bool_decide_eq_true; assumption.
Qed.

Lemma registration_kept_witness :
  exists cidx,
    construct_from_chain_file example_shared_partner = Ok cidx
    /\ registered cidx "chr1" 0 = true.
Proof.
  eexists. split; [vm_compute; reflexivity|].
  eapply (registration_kept
            [] ["5"; "chain 1 chr3 10 + 0 5 chr2 10 + 0 5 2"; "5"]
            "chain 1 chr1 10 + 0 5 chr2 10 + 0 5 1" (ChainIndex_init, None)
            _ "chr1" "chr2" "+" "+" "chr1").
  - reflexivity.
  - reflexivity.
  - left. reflexivity.
  - repeat constructor; intros _; vm_compute; discriminate.
  - reflexivity.
  - vm_compute. reflexivity.
Defined.
